(** * BeltaScraper: the spider of [belta/spiders/belta_spider.py]

    A shallow embedding of [BeltaSpider] and the properties of its
    classifier, date handling, field extraction and crawl control.

    Python values are modelled as follows.
    - A [str] is the list of its code points ([N]); literals are written
      as UTF-8 text and decoded by [u].
    - [None] is [None]: a value that may be [None] in the source has an
      [option] type here, also where the source never produces [None].
    - A caught [ValueError] is [None] of the function that raises it.
    - [datetime.now()] reads a clock: the readings are a function of the
      number of readings taken so far, and that number is threaded
      through the code that reads the clock.
    - The DOM engine is seen through the answers it gives to selectors.
    - Logging is left out: no branch of the spider depends on it. *)

From Stdlib Require Import List NArith ZArith Bool Lia.
From Stdlib Require String Ascii.
Import ListNotations String.StringSyntax Ascii.AsciiSyntax.

Delimit Scope string_scope with string.
Delimit Scope char_scope with char.

Set Implicit Arguments.

(* ===================================================================== *)
(** ** Python strings *)
(* ===================================================================== *)

Module Py.

Definition char := N.
Definition str := list char.

Local Open Scope N_scope.

(** UTF-8 decoding of a literal: [need] continuation bytes are still
    expected for the code point accumulated in [acc]. *)
Fixpoint utf8 (s : String.string) (need : nat) (acc : N) : str :=
  match s with
  | String.EmptyString => []
  | String.String a rest =>
      let b := Ascii.N_of_ascii a in
      match need with
      | O =>
          if b <? 128 then b :: utf8 rest 0 0
          else if b <? 224 then utf8 rest 1 (b - 192)
          else if b <? 240 then utf8 rest 2 (b - 224)
          else utf8 rest 3 (b - 240)
      | S n =>
          let acc' := acc * 64 + (b - 128) in
          match n with
          | O => acc' :: utf8 rest 0 0
          | S _ => utf8 rest n acc'
          end
      end
  end.

Definition u (s : String.string) : str := utf8 s 0 0.

Definition ch (a : Ascii.ascii) : char := Ascii.N_of_ascii a.

Arguments u s%_string.
Arguments ch a%_char.

Definition between (lo hi c : char) : bool := (lo <=? c) && (c <=? hi).

Arguments between (lo hi c)%_N.

(** [str.isspace] of one character, which is also [\s] of [re] on a
    [str] pattern: CPython's [_PyUnicode_IsWhitespace]. *)
Definition is_space (c : char) : bool :=
  between 9 13 c || between 28 32 c || (c =? 133) || (c =? 160)
  || (c =? 5760) || between 8192 8202 c || (c =? 8232) || (c =? 8233)
  || (c =? 8239) || (c =? 8287) || (c =? 12288).

(** [str.lower] on the alphabets the spider meets: Basic Latin, Latin-1
    and the Cyrillic block U+0400..U+045F. Code points outside them are
    left as they are; Python lowers some of those too. *)
Definition lower_char (c : char) : char :=
  if between 65 90 c then c + 32
  else if between 192 222 c && negb (c =? 215) then c + 32
  else if between 1024 1039 c then c + 80
  else if between 1040 1071 c then c + 32
  else c.

Definition lower (s : str) : str := map lower_char s.

(** [prefix.startswith]: [startswith p s] is [s.startswith(p)]. *)
Fixpoint startswith (p s : str) : bool :=
  match p, s with
  | [], _ => true
  | _ :: _, [] => false
  | a :: p', b :: s' => (a =? b) && startswith p' s'
  end.

(** [needle in hay] on strings. *)
Fixpoint contains (needle hay : str) : bool :=
  startswith needle hay
  || match hay with
     | [] => false
     | _ :: hay' => contains needle hay'
     end.

Fixpoint lstrip_by (p : char -> bool) (s : str) : str :=
  match s with
  | [] => []
  | c :: s' => if p c then lstrip_by p s' else s
  end.

Definition rstrip_by (p : char -> bool) (s : str) : str :=
  rev (lstrip_by p (rev s)).

(** [s.strip()] *)
Definition strip (s : str) : str := rstrip_by is_space (lstrip_by is_space s).

Definition mem_char (cs : str) (c : char) : bool := existsb (N.eqb c) cs.

(** [s.rstrip(chars)] *)
Definition rstrip_chars (cs s : str) : str := rstrip_by (mem_char cs) s.

(** [sep.join(parts)] *)
Fixpoint join (sep : str) (parts : list str) : str :=
  match parts with
  | [] => []
  | [p] => p
  | p :: rest => p ++ sep ++ join sep rest
  end.

(** [s.replace(old, new)] for a non-empty [old]: occurrences are found
    from the left and do not overlap; [skip] characters of the occurrence
    just replaced are still to be passed over. *)
Fixpoint replace_from (old new s : str) (skip : nat) : str :=
  match s with
  | [] => []
  | c :: s' =>
      match skip with
      | S k => replace_from old new s' k
      | O =>
          if startswith old s
          then new ++ replace_from old new s' (length old - 1)
          else c :: replace_from old new s' 0
      end
  end.

Definition replace (old new s : str) : str :=
  match old with
  | [] => new ++ flat_map (fun c => c :: new) s
  | _ :: _ => replace_from old new s 0
  end.

(** [s.split(sep)] for a non-empty [sep]; [cur] is the field being read,
    in reverse. The result always has at least one field. *)
Fixpoint split_from (sep s : str) (skip : nat) (cur : str) : list str :=
  match s with
  | [] => [rev cur]
  | c :: s' =>
      match skip with
      | S k => split_from sep s' k cur
      | O =>
          if startswith sep s
          then rev cur :: split_from sep s' (length sep - 1) []
          else split_from sep s' 0 (c :: cur)
      end
  end.

Definition split_sep (sep s : str) : list str := split_from sep s 0 [].

(** [s.split()]: fields between runs of whitespace, empty fields dropped. *)
Fixpoint split_ws_from (s : str) (cur : str) : list str :=
  match s with
  | [] => match cur with [] => [] | _ :: _ => [rev cur] end
  | c :: s' =>
      if is_space c
      then match cur with
           | [] => split_ws_from s' []
           | _ :: _ => rev cur :: split_ws_from s' []
           end
      else split_ws_from s' (c :: cur)
  end.

Definition split (s : str) : list str := split_ws_from s [].

(** Truth value of a string and of an optional string ([if s:]). *)
Definition truthy (s : str) : bool :=
  match s with [] => false | _ :: _ => true end.

Definition truthy_opt (o : option str) : bool :=
  match o with Some s => truthy s | None => false end.

(** [int(s)] on ASCII digits: surrounding whitespace, one optional sign,
    and single underscores between digits are accepted; anything else is
    a [ValueError]. *)
Definition is_digit (c : char) : bool := between 48 57 c.

Fixpoint digits_value (s : str) (acc : Z) (after_digit : bool) : option Z :=
  match s with
  | [] => if after_digit then Some acc else None
  | c :: s' =>
      if is_digit c
      then digits_value s' (10 * acc + Z.of_N (c - 48))%Z true
      else if (c =? 95) && after_digit
           then digits_value s' acc false
           else None
  end.

Definition int (s : str) : option Z :=
  match strip s with
  | c :: ds =>
      if c =? 43 then digits_value ds 0%Z false
      else if c =? 45 then option_map Z.opp (digits_value ds 0%Z false)
      else digits_value (c :: ds) 0%Z false
  | [] => None
  end.

(** Decimal digits of a natural number, most significant first, padded
    with zeros to [width] (the [%0wd] of [isoformat]). *)
Fixpoint digits_of (fuel : nat) (n : N) (acc : str) : str :=
  match fuel with
  | O => acc
  | S f =>
      let acc' := (48 + n mod 10) :: acc in
      if n / 10 =? 0 then acc' else digits_of f (n / 10) acc'
  end.

Definition zfill (width : nat) (s : str) : str :=
  repeat 48 (width - length s) ++ s.

Definition decimal (width : nat) (z : Z) : str :=
  let n := Z.to_N z in
  zfill width (digits_of (S (N.to_nat (N.log2 n))) n []).

End Py.

Import Py.

(* ===================================================================== *)
(** ** Regular expressions of [re] *)
(* ===================================================================== *)

(** The part of [re] the spider's patterns are written in: character
    classes, concatenation, alternation, counted and unbounded
    repetition (greedy or lazy) and capturing groups, matched by
    backtracking. [run r s] lists every way [r] matches a prefix of [s],
    in the order the backtracking matcher tries them; its head is the
    match [re] reports at that position. *)

Module Re.

Inductive regex : Type :=
| Eps : regex
| Chr : (char -> bool) -> regex
| Cat : regex -> regex -> regex
| Alt : regex -> regex -> regex
| Rep : regex -> nat -> option nat -> bool -> regex
| Grp : nat -> regex -> regex.

(** One way to match: the text consumed, the text left, and the groups
    closed on the way, in closing order. *)
Record thread : Type := Thread {
  consumed : str;
  rest : str;
  caps : list (nat * str)
}.

Definition stay (s : str) : thread := Thread [] s [].

Definition and_then (ts : list thread) (k : str -> list thread) : list thread :=
  flat_map
    (fun a =>
       map (fun b => Thread (consumed a ++ consumed b) (rest b) (caps a ++ caps b))
           (k (rest a)))
    ts.

Definition advances (a : thread) : bool := truthy (consumed a).

Definition dec_hi (hi : option nat) : option nat := option_map pred hi.

Definition hi_is_zero (hi : option nat) : bool :=
  match hi with Some O => true | _ => false end.

(** [r{lo,hi}]: while iterations are owed ([lo > 0]) one is taken; after
    that one more is tried before (greedy) or after (lazy) stopping, and
    an iteration that consumes nothing ends the repetition. *)
Fixpoint rep (step : str -> list thread) (fuel lo : nat) (hi : option nat)
    (greedy : bool) (s : str) : list thread :=
  match fuel with
  | O => []
  | S f =>
      match lo with
      | S lo' => and_then (step s) (rep step f lo' (dec_hi hi) greedy)
      | O =>
          if hi_is_zero hi then [stay s]
          else
            let more :=
              and_then (filter advances (step s)) (rep step f 0 (dec_hi hi) greedy) in
            if greedy then more ++ [stay s] else stay s :: more
      end
  end.

Definition rep_fuel (lo : nat) (s : str) : nat := S (lo + length s).

Fixpoint run (r : regex) : str -> list thread :=
  match r with
  | Eps => fun s => [stay s]
  | Chr p =>
      fun s =>
        match s with
        | c :: s' => if p c then [Thread [c] s' []] else []
        | [] => []
        end
  | Cat r1 r2 => fun s => and_then (run r1 s) (run r2)
  | Alt r1 r2 => fun s => run r1 s ++ run r2 s
  | Rep r1 lo hi greedy => fun s => rep (run r1) (rep_fuel lo s) lo hi greedy s
  | Grp n r1 =>
      fun s =>
        map (fun a => Thread (consumed a) (rest a) (caps a ++ [(n, consumed a)]))
            (run r1 s)
  end.

(** A match object: where it starts, and the thread that matched. *)
Record match_obj : Type := Match {
  before : str;
  found : thread
}.

(** [m.group(n)]: the text of the last closing of group [n], [None] when
    the group took no part in the match. *)
Fixpoint last_cap (n : nat) (cs : list (nat * str)) (acc : option str) : option str :=
  match cs with
  | [] => acc
  | (k, x) :: cs' => last_cap n cs' (if Nat.eqb k n then Some x else acc)
  end.

Definition group (n : nat) (mo : match_obj) : option str :=
  match n with
  | O => Some (consumed (found mo))
  | S _ => last_cap n (caps (found mo)) None
  end.

(** [re.search]: the first position, from the left, at which the
    pattern matches; [pre] is the text passed over, in reverse. *)
Fixpoint search_from (r : regex) (pre s : str) : option match_obj :=
  match hd_error (run r s) with
  | Some a => Some (Match (rev pre) a)
  | None =>
      match s with
      | [] => None
      | c :: s' => search_from r (c :: pre) s'
      end
  end.

Definition search (r : regex) (s : str) : option match_obj := search_from r [] s.

(** The successive matches of [re.finditer], each with the text between
    it and the match before, and the text after the last one. [skip]
    characters of the last match are still to be passed over and [gap]
    is the text since its end, in reverse. After an empty match the next
    one at the same position has to consume something. *)
Definition cons_fst {A B : Type} (a : A) (p : list A * B) : list A * B :=
  (a :: fst p, snd p).

Fixpoint scan (r : regex) (s : str) (skip : nat) (gap : str)
    : list match_obj * str :=
  match skip, s with
  | S k, _ :: s' => scan r s' k gap
  | S _, [] => ([], rev gap)
  | O, _ =>
      let resume (n : nat) (gap' : str) :=
        match s with
        | [] => ([], rev gap')
        | c :: s' =>
            match n with
            | O => scan r s' 0 (c :: gap')
            | S k => scan r s' k gap'
            end
        end in
      match hd_error (run r s) with
      | None => resume 0 gap
      | Some a =>
          if advances a
          then cons_fst (Match (rev gap) a) (resume (length (consumed a)) [])
          else
            cons_fst (Match (rev gap) a)
              match hd_error (filter advances (run r s)) with
              | Some b => cons_fst (Match [] b) (resume (length (consumed b)) [])
              | None => resume 0 []
              end
      end
  end.

Definition finditer (r : regex) (s : str) : list match_obj := fst (scan r s 0 []).

(** [re.findall] for a pattern with exactly one group: the text of the
    group in each match, the empty string where it took no part. *)
Definition findall (r : regex) (s : str) : list str :=
  map (fun mo => match group 1 mo with Some x => x | None => [] end)
      (finditer r s).

(** [re.sub] with a replacement that has no group reference. *)
Definition sub (r : regex) (repl s : str) : str :=
  let '(ms, tail) := scan r s 0 [] in
  flat_map (fun mo => before mo ++ repl) ms ++ tail.

(** *** Pattern syntax *)

Fixpoint seq (rs : list regex) : regex :=
  match rs with
  | [] => Eps
  | [r] => r
  | r :: rs' => Cat r (seq rs')
  end.

Fixpoint alts (rs : list regex) : regex :=
  match rs with
  | [] => Chr (fun _ => false)
  | [r] => r
  | r :: rs' => Alt r (alts rs')
  end.

Definition star (r : regex) : regex := Rep r 0 None true.
Definition plus (r : regex) : regex := Rep r 1 None true.
Definition plus_lazy (r : regex) : regex := Rep r 1 None false.
Definition opt (r : regex) : regex := Rep r 0 (Some 1) true.
Definition times (lo hi : nat) (r : regex) : regex := Rep r lo (Some hi) true.

(** The characters [re.IGNORECASE] takes for one another beside those
    with the same lowercase form, for the Cyrillic letters: the entries
    of the table of extra cases of [re] in the Cyrillic blocks. *)
Definition EXTRA_CASES : list (char * list char) :=
  [ (1074, [7296]); (1076, [7297]); (1086, [7298]); (1089, [7299]);
    (1090, [7300; 7301]); (1098, [7302]); (1123, [7303]);
    (7296, [1074]); (7297, [1076]); (7298, [1086]); (7299, [1089]);
    (7300, [1090; 7301]); (7301, [1090; 7300]); (7302, [1098]);
    (7303, [1123]); (7304, [42571]); (42571, [7304]) ]%N.

Fixpoint extra_cases (lo : char) (table : list (char * list char)) : list char :=
  match table with
  | [] => []
  | (k, others) :: table' => if N.eqb k lo then others else extra_cases lo table'
  end.

(** A literal character. Under [re.IGNORECASE] ([ic]) the pattern holds
    the lowercase form of the character with its extra cases, and a
    character of the text matches when its lowercase form is one of
    them. The patterns of the spider compiled with that flag are made of
    Cyrillic letters of U+0430..U+044F, spaces and dashes; for these
    [lower_char] and [EXTRA_CASES] give every character that [re]
    matches. *)
Definition same_char (ic : bool) (c x : char) : bool :=
  if ic
  then N.eqb (lower_char x) (lower_char c)
       || mem_char (extra_cases (lower_char c) EXTRA_CASES) (lower_char x)
  else N.eqb x c.

Definition lit (ic : bool) (s : str) : regex :=
  seq (map (fun c => Chr (same_char ic c)) s).

Definition not_char (c : char) : regex := Chr (fun x => negb (N.eqb x c)).

(** [\s] and [\d]; the digits are the ASCII ones. *)
Definition ws : regex := Chr is_space.
Definition digit : regex := Chr is_digit.

End Re.

(* ===================================================================== *)
(** ** [datetime] *)
(* ===================================================================== *)

Module DT.

Local Open Scope Z_scope.

Record datetime : Type := Datetime {
  year : Z;
  month : Z;
  day : Z;
  hour : Z;
  minute : Z;
  second : Z;
  microsecond : Z
}.

Definition is_leap (y : Z) : bool :=
  (y mod 4 =? 0) && (negb (y mod 100 =? 0) || (y mod 400 =? 0)).

Definition days_in_month (y m : Z) : Z :=
  if m =? 2 then (if is_leap y then 29 else 28)
  else if (m =? 4) || (m =? 6) || (m =? 9) || (m =? 11) then 30
  else 31.

Definition in_range (lo hi x : Z) : bool := (lo <=? x) && (x <=? hi).

(** [datetime(y, mo, d, h, mi)]: a [ValueError] outside the calendar. *)
Definition make (y mo d h mi : Z) : option datetime :=
  if in_range 1 9999 y && in_range 1 12 mo && in_range 1 (days_in_month y mo) d
     && in_range 0 23 h && in_range 0 59 mi
  then Some (Datetime y mo d h mi 0 0)
  else None.

(** [a.date() < b.date()] and [a.date() == b.date()] *)
Definition date_lt (a b : datetime) : bool :=
  (year a <? year b)
  || ((year a =? year b)
      && ((month a <? month b) || ((month a =? month b) && (day a <? day b)))).

Definition date_eq (a b : datetime) : bool :=
  (year a =? year b) && (month a =? month b) && (day a =? day b).

(** [d.isoformat()] *)
Definition isoformat (d : datetime) : str :=
  decimal 4 (year d) ++ u "-" ++ decimal 2 (month d) ++ u "-" ++ decimal 2 (day d)
  ++ u "T" ++ decimal 2 (hour d) ++ u ":" ++ decimal 2 (minute d)
  ++ u ":" ++ decimal 2 (second d)
  ++ (if microsecond d =? 0 then [] else u "." ++ decimal 6 (microsecond d)).

End DT.

(* ===================================================================== *)
(** ** Selectors *)
(* ===================================================================== *)

(** A selected node is known by its extracted text ([data]) and by the
    nodes it answers to each selector applied to it. A selector list is
    a list of nodes, as in [parsel]. *)

Module Css.

#[local] Unset Elimination Schemes.

Inductive node : Type :=
| Node : str -> list (String.string * list node) -> node.

#[local] Set Elimination Schemes.

Definition data (n : node) : str := let '(Node d _) := n in d.

Definition answers (n : node) : list (String.string * list node) :=
  let '(Node _ a) := n in a.

Fixpoint lookup (q : String.string) (tbl : list (String.string * list node))
    : list node :=
  match tbl with
  | [] => []
  | (k, ns) :: tbl' => if String.eqb k q then ns else lookup q tbl'
  end.

(** [sel.css(q)] *)
Definition css (q : String.string) (sel : list node) : list node :=
  flat_map (fun n => lookup q (answers n)) sel.

(** [sel.get()] and [sel.getall()] *)
Definition get (sel : list node) : option str :=
  match sel with
  | [] => None
  | n :: _ => Some (data n)
  end.

Definition getall (sel : list node) : list str := map data sel.

Definition nonempty (sel : list node) : bool :=
  match sel with [] => false | _ :: _ => true end.

Arguments css q%_string sel.

(** A text node, and an element that answers the given selectors. *)
Definition text (s : str) : node := Node s [].
Definition elem (a : list (String.string * list node)) : node := Node [] a.

End Css.

Import Re DT Css.

(* ===================================================================== *)
(** ** The spider *)
(* ===================================================================== *)

(** What a callback yields to the engine: requests. [scrapy.Request]
    carries its callback and [meta]; the two shapes the spider builds
    are the two constructors. *)
Inductive request : Type :=
| NewsListRequest (url : str) (page : Z) (continue_loading : bool)
| ArticleRequest (url : str) (title snippet : str) (item_date : option datetime).

(** The dictionary [parse_article] yields. *)
Module Item.
Record t : Type := Make {
  title : str;
  url : str;
  snippet : str;
  fio : option str;
  position : option str;
  publication_date : option str;
  is_today : bool;
  relevant : bool;
  notification_header : option str;
  notification_text : option str;
  notification_source : option str;
  scraping_timestamp : str;
  raw_content : str
}.
End Item.

(** The dictionary [create_notification] returns. *)
Record notification : Type := Notification {
  header : str;
  text : str;
  source : str
}.

(** The double quote, for the selectors that contain one. *)
Definition dq : String.string :=
  String.String (Ascii.ascii_of_nat 34) String.EmptyString.

Definition RELEVANT_CATEGORIES : list str :=
  map u [ "президент"; "политика"; "власть"; "кадровые решения";
          "назначения"; "указ"; "государство" ]%string.

Definition APPOINTMENT_PATTERNS : list str :=
  map u [ "президент назначил";
          "указом президента назначен";
          "президент принял кадровые решения";
          "назначен на должность";
          "освобожден от должности";
          "освобождён от должности";
          "назначена на должность";
          "назначен";
          "назначена";
          "назначены";
          "присвоено звание";
          "присвоен класс";
          "назначение";
          "кадровые решения";
          "перемещение";
          "увольнение";
          "отставка" ]%string.

(** [[А-ЯЁ]] and [[а-яё]] *)
Definition upper_cyr (c : char) : bool := between 1040 1071 c || N.eqb c 1025.
Definition lower_cyr (c : char) : bool := between 1072 1103 c || N.eqb c 1105.

(** [[А-ЯЁ][а-яё]+] *)
Definition cap_word : regex := Cat (Chr upper_cyr) (plus (Chr lower_cyr)).

(** [FIO_PATTERN], compiled without flags:
    [([А-ЯЁ][а-яё]+(?:\s+[А-ЯЁ][а-яё]+){1,2})] *)
Definition FIO_PATTERN : regex :=
  Grp 1 (Cat cap_word (times 1 2 (Cat (plus ws) cap_word))).

Definition title_nouns : list str :=
  map u [ "председатель"; "начальник"; "министр"; "руководитель"; "директор";
          "заместитель"; "советник"; "помощник"; "представитель" ]%string.

(** [<lead>\s+([^.]+)] *)
Definition after_phrase (lead : str) : regex :=
  seq [ lit true lead; plus ws; Grp 1 (plus (not_char (ch "."))) ].

(** [<dash>\s+([^.]+?\s+(?:председатель|...|представитель)[^.]+)] *)
Definition after_dash (dash : str) : regex :=
  seq [ lit true dash; plus ws;
        Grp 1 (seq [ plus_lazy (not_char (ch ".")); plus ws;
                     alts (map (lit true) title_nouns);
                     plus (not_char (ch ".")) ]) ].

(** [POSITION_PATTERNS], compiled under [re.IGNORECASE] as
    [extract_position] uses them. *)
Definition POSITION_PATTERNS : list regex :=
  [ after_phrase (u "на должность");
    after_phrase (u "назначен");
    after_phrase (u "назначена");
    after_dash (u "–");
    after_dash (u "—") ].

Definition excluded_words : list str :=
  map u [ "Президент"; "Республики"; "Беларусь"; "Комитет"; "Совет";
          "Министерство"; "Государственный"; "Национальный";
          "Администрация" ]%string.

Definition position_keywords : list str :=
  map u [ "председатель"; "министр"; "начальник"; "директор";
          "руководитель"; "заместитель"; "советник"; "помощник";
          "представитель"; "посол"; "судья"; "прокурор" ]%string.

(** The fallback pattern of [extract_position], under [re.IGNORECASE]:
    one group holding a run without a full stop, the keyword, and a run
    without a full stop; both runs may be empty. *)
Definition keyword_pattern (keyword : str) : regex :=
  Grp 1 (seq [ star (not_char (ch ".")); lit true keyword;
               star (not_char (ch ".")) ]).

Definition FIO_SENTINEL : str := u "Не удалось определить ФИО".
Definition POSITION_SENTINEL : str := u "Должность не указана".

Definition ru_months : list (str * Z) :=
  [ (u "января", 1); (u "февраля", 2); (u "марта", 3); (u "апреля", 4);
    (u "мая", 5); (u "июня", 6); (u "июля", 7); (u "августа", 8);
    (u "сентября", 9); (u "октября", 10); (u "ноября", 11);
    (u "декабря", 12) ]%Z.

Definition str_eqb (a b : str) : bool :=
  Nat.eqb (length a) (length b) && startswith a b.

(** [ru_months[k]], [None] when [k not in ru_months] *)
Fixpoint month_number (k : str) (tbl : list (str * Z)) : option Z :=
  match tbl with
  | [] => None
  | (name, n) :: tbl' => if str_eqb name k then Some n else month_number k tbl'
  end.

(** [(\d{1,2})\s+([а-яё]+)\s+(\d{4})] *)
Definition date_words : list regex :=
  [ Grp 1 (times 1 2 digit); plus ws; Grp 2 (plus (Chr lower_cyr)); plus ws;
    Grp 3 (times 4 4 digit) ].

Definition DATE_RE : regex := seq date_words.

(** [(\d{1,2})\s+([а-яё]+)\s+(\d{4})(?:,\s+(\d{1,2}):(\d{2}))?] *)
Definition DATE_FULL_RE : regex :=
  seq (date_words ++
       [ opt (seq [ lit false (u ","); plus ws; Grp 4 (times 1 2 digit);
                    lit false (u ":"); Grp 5 (times 2 2 digit) ]) ]).

(** [get_page\('([^']+)'] *)
Definition GET_PAGE_RE : regex :=
  seq [ lit false (u "get_page('"); Grp 1 (plus (not_char (ch "'")));
        lit false (u "'") ].

Definition date_formats : list str :=
  map u [ "%Y-%m-%dT%H:%M:%S"; "%Y-%m-%d %H:%M:%S"; "%d.%m.%Y %H:%M";
          "%d.%m.%Y"; "%d %m %Y" ]%string.

Definition content_selectors : list String.string :=
  [ ".article-text"; ".news-text"; ".content"; "article"; ".post-content";
    "#article-content"; ".detail-text"; ".text" ]%string.

(** [div[itemprop=.articleBody.]] and
    [meta[property=.article:published_time.]::attr(content)], with double
    quotes where the dots stand *)
Definition quoted (parts : list String.string) : String.string :=
  String.concat dq parts.

Definition article_body_selector : String.string :=
  quoted [ "div[itemprop="; "articleBody"; "]" ]%string.

Definition published_time_selector : String.string :=
  quoted [ "meta[property="; "article:published_time"; "]::attr(content)" ]%string.

Definition date_selectors : list String.string :=
  [ "time::attr(datetime)"; ".date::text"; ".news-date::text";
    ".publication-date::text";
    published_time_selector;
    ".meta-date::text"; ".article-date::text" ]%string.

(** [option] as the error monad of the [try] blocks: [None] is the
    exception the block catches. *)
Definition bind {A B : Type} (o : option A) (k : A -> option B) : option B :=
  match o with
  | Some a => k a
  | None => None
  end.

Notation "x <- o ;; k" := (bind o (fun x => k))
  (at level 61, o at next level, right associativity).

Section BeltaSpider.

(** Library functions the spider calls and this development leaves
    open: [urllib.parse.urljoin], and [datetime.strptime] with [None]
    for its [ValueError]. *)
Variable urljoin : str -> str -> str.
Variable strptime : str -> str -> option datetime.

(** The clock: [now i] is what the [i]-th call of [datetime.now()]
    returns. *)
Variable now : nat -> datetime.

(** [self.today], read once in [__init__] *)
Variable today : datetime.

Definition is_presidential_appointment (text : str) : bool :=
  let text_lower := lower text in
  let has_category :=
    existsb (fun category => contains category text_lower) RELEVANT_CATEGORIES in
  let has_appointment :=
    existsb (fun pattern => contains pattern text_lower) APPOINTMENT_PATTERNS in
  has_category && has_appointment.

Definition extract_item_date (item : node) : option datetime :=
  let date_div := css ".new_date" [item] in
  if nonempty date_div then
    let day := get (css ".day::text" date_div) in
    let month_year := get (css ".month_year::text" date_div) in
    if truthy_opt day && truthy_opt month_year then
      day <- day ;;
      month_year <- month_year ;;
      let day := strip day in
      let month_year := strip (replace (u ".") (u "") (strip month_year)) in
      let parts := split_sep (u ".") month_year in
      if Nat.eqb (length parts) 2 then
        month <- int (nth 0 parts []) ;;
        year_short <- int (nth 1 parts []) ;;
        let year :=
          (if 50 <=? year_short then 1900 + year_short
           else 2000 + year_short)%Z in
        day_int <- int day ;;
        make year month day_int 0 0
      else None
    else None
  else None.

(** The loop of [extract_fio] over the matches. *)
Fixpoint first_fio (fio_matches : list str) : option str :=
  match fio_matches with
  | [] => None
  | match_ :: later =>
      let words := split match_ in
      if Nat.leb 2 (length words) && Nat.leb (length words) 3 then
        if negb (existsb (fun excluded => contains excluded match_) excluded_words)
        then Some (strip match_)
        else first_fio later
      else first_fio later
  end.

Definition extract_fio (full_text title : str) : str :=
  let fio_matches := findall FIO_PATTERN full_text in
  match first_fio fio_matches with
  | Some fio => fio
  | None => FIO_SENTINEL
  end.

(** The cleaning of a matched position: [strip], whitespace runs to one
    space, then [rstrip] of the punctuation. *)
Definition clean_position (matched : str) : str :=
  let position := strip matched in
  let position := sub (plus ws) (u " ") position in
  rstrip_chars (u ".,;:") position.

(** The first loop of [extract_position], over the patterns. *)
Fixpoint position_by_pattern (patterns : list regex) (full_text : str)
    : option str :=
  match patterns with
  | [] => None
  | pattern :: later =>
      match findall pattern full_text with
      | first :: _ =>
          let position := clean_position first in
          if Nat.ltb 5 (length position) then Some position
          else position_by_pattern later full_text
      | [] => position_by_pattern later full_text
      end
  end.

(** The second loop of [extract_position], over the keywords. *)
Fixpoint position_by_keyword (keywords : list str) (full_text : str)
    : option str :=
  match keywords with
  | [] => None
  | keyword :: later =>
      match findall (keyword_pattern keyword) full_text with
      | first :: _ => Some (strip first)
      | [] => position_by_keyword later full_text
      end
  end.

Definition extract_position (full_text title : str) : str :=
  match position_by_pattern POSITION_PATTERNS full_text with
  | Some position => position
  | None =>
      match position_by_keyword position_keywords full_text with
      | Some position => position
      | None => POSITION_SENTINEL
      end
  end.

(** The loop of [extract_article_content] over the fallback selectors. *)
Fixpoint content_by_selector (selectors : list String.string)
    (response : list node) : option str :=
  match selectors with
  | [] => None
  | selector :: later =>
      let content := css selector response in
      let paragraphs := getall (css "p::text" content) in
      if nonempty content && negb (Nat.eqb (length paragraphs) 0)
      then Some (strip (join (u " ") paragraphs))
      else content_by_selector later response
  end.

Definition extract_article_content (response : list node) : str :=
  let article_body := css article_body_selector response in
  let all_text := getall (css "::text" article_body) in
  if nonempty article_body && negb (Nat.eqb (length all_text) 0) then
    join (u " ")
      (map strip (filter (fun text => truthy (strip text)) all_text))
  else
    match content_by_selector content_selectors response with
    | Some content => content
    | None =>
        let paragraphs := getall (css "p::text" response) in
        if negb (Nat.eqb (length paragraphs) 0)
        then strip (join (u " ") paragraphs)
        else u ""
    end.

Definition parse_date_full_format (date_string : str) : option datetime :=
  let date_string := strip (sub (plus ws) (u " ") date_string) in
  match search DATE_FULL_RE (lower date_string) with
  | Some m =>
      day <- bind (group 1 m) int ;;
      month_ru <- group 2 m ;;
      year <- bind (group 3 m) int ;;
      if truthy_opt (group 4 m) && truthy_opt (group 5 m) then
        hour <- bind (group 4 m) int ;;
        minute <- bind (group 5 m) int ;;
        month <- month_number month_ru ru_months ;;
        make year month day hour minute
      else
        month <- month_number month_ru ru_months ;;
        make year month day 0 0
  | None => None
  end.

(** The loop of [parse_date_string] over the formats. *)
Fixpoint date_by_format (formats : list str) (date_string : str)
    : option datetime :=
  match formats with
  | [] => None
  | fmt :: later =>
      match strptime date_string fmt with
      | Some d => Some d
      | None => date_by_format later date_string
      end
  end.

(** The last resort of [parse_date_string]: the month-name pattern,
    searched anywhere in the lowercased text. *)
Definition date_by_month_name (date_string : str) : option datetime :=
  match search DATE_RE (lower date_string) with
  | Some m =>
      day <- group 1 m ;;
      month <- group 2 m ;;
      year <- group 3 m ;;
      month <- month_number month ru_months ;;
      year <- int year ;;
      day <- int day ;;
      make year month day 0 0
  | None => None
  end.

Definition parse_date_string (date_string : str) : option datetime :=
  if negb (truthy date_string) then None
  else
    let date_string := strip date_string in
    match date_by_format date_formats date_string with
    | Some d => Some d
    | None => date_by_month_name date_string
    end.

(** One attempt of [extract_article_date]: the text a selector gets, if
    any and not empty, stripped and handed to a parser. *)
Definition date_at (selector : String.string) (parse : str -> option datetime)
    (response : list node) : option datetime :=
  let date_text := get (css selector response) in
  if truthy_opt date_text
  then bind date_text (fun s => parse (strip s))
  else None.

Arguments date_at selector%_string parse response.

(** The loop of [extract_article_date] over the fallback selectors. *)
Fixpoint date_by_selector (selectors : list String.string)
    (response : list node) : option datetime :=
  match selectors with
  | [] => None
  | selector :: later =>
      match date_at selector parse_date_string response with
      | Some parsed_date => Some parsed_date
      | None => date_by_selector later response
      end
  end.

(** [extract_article_date], with the number of clock readings before and
    after. *)
Definition extract_article_date (response : list node) (ticks : nat)
    : option datetime * nat :=
  match date_at ".date_full::text" parse_date_full_format response with
  | Some parsed_date => (Some parsed_date, ticks)
  | None =>
      match date_by_selector date_selectors response with
      | Some parsed_date => (Some parsed_date, ticks)
      | None => (Some (now ticks), S ticks)
      end
  end.

Definition check_is_today (pub_date : option datetime) : bool :=
  match pub_date with
  | None => false
  | Some d => date_eq d today
  end.

Definition NOTIFICATION_HEADER : str :=
  u "Новое назначение Президента Республики Беларусь".

Definition create_notification (fio position url : str) : notification :=
  let header := NOTIFICATION_HEADER in
  let text :=
    u "Опубликовано новое кадровое решение: " ++ fio
    ++ u ", назначен(а) на должность " ++ position
    ++ u ". Необходимо подготовить поздравление." in
  Notification header text url.

Definition clean_url (url : str) : option str :=
  if negb (truthy url) then None
  else
    let url := sub (lit false (u "&amp;")) (u "&") url in
    if startswith (u "//") url then Some (u "https:" ++ url)
    else if startswith (u "/") url then Some (urljoin (u "https://belta.by") url)
    else if negb (startswith (u "http") url)
         then Some (urljoin (u "https://belta.by") url)
         else Some url.

(** [parse_article], lines 187 to 206: the relevance of the article and
    its extracted body text, [None] when [article_content] was never
    assigned (the source asks [locals()] for it later). *)
Definition article_relevance (title : str) (is_today : bool)
    (response : list node) : bool * option str :=
  let title_relevant := is_presidential_appointment title in
  if is_today && title_relevant then (true, None)
  else
    let article_content := extract_article_content response in
    let description_relevant := is_presidential_appointment article_content in
    if description_relevant then (true, Some article_content)
    else (false, Some article_content).

(** A response as [parse_article] reads it: [response.url] and the
    document; [response.meta] is given beside it. *)
Record response : Type := Response {
  response_url : str;
  response_root : list node
}.

(** [parse_article], with the number of clock readings before and after.
    It yields one dictionary. *)
Definition parse_article (title snippet : str) (item_date : option datetime)
    (resp : response) (ticks : nat) : Item.t * nat :=
  let '(pub_date, ticks) := extract_article_date (response_root resp) ticks in
  let is_today := check_is_today pub_date in
  let '(relevant, article_content) :=
    article_relevance title is_today (response_root resp) in
  let '(fio, position, notification) :=
    if relevant then
      let full_text :=
        title ++ u " " ++ snippet ++ u " "
        ++ match article_content with Some c => c | None => u "" end in
      let fio := extract_fio full_text title in
      let position := extract_position full_text title in
      (Some fio, Some position,
       Some (create_notification fio position (response_url resp)))
    else (None, None, None) in
  ({| Item.title := title;
      Item.url := response_url resp;
      Item.snippet := snippet;
      Item.fio := fio;
      Item.position := position;
      Item.publication_date := option_map isoformat pub_date;
      Item.is_today := is_today;
      Item.relevant := relevant;
      Item.notification_header := option_map header notification;
      Item.notification_text := option_map text notification;
      Item.notification_source := option_map source notification;
      Item.scraping_timestamp := isoformat (now ticks);
      Item.raw_content :=
        match article_content with
        | Some c => if truthy c then firstn 1000 c else u ""
        | None => u ""
        end |},
   S ticks).

Definition cons_request (r : request) (p : list request * bool)
    : list request * bool :=
  (r :: fst p, snd p).

Section Listing.

(** [self.extract_item_date], as [parse_news_list] calls it. *)
Variable item_date_of : node -> option datetime.

(** The loop of [parse_news_list] over the items: the requests it
    yields, in order, and [found_previous_day] at its end. *)
Fixpoint parse_items (news_items : list node) : list request * bool :=
  match news_items with
  | [] => ([], false)
  | item :: later =>
      let item_date := item_date_of item in
      if match item_date with
         | Some d => date_lt d today
         | None => false
         end
      then ([], true)
      else
        let title_span := css ".lenta_item_title" [item] in
        if negb (nonempty title_span) then parse_items later
        else
          let title := get (css "::text" title_span) in
          let title :=
            match title with
            | Some t =>
                if truthy t then t
                else strip (join (u " ") (getall (css "::text" title_span)))
            | None => strip (join (u " ") (getall (css "::text" title_span)))
            end in
          if negb (truthy title) then parse_items later
          else
            let link := get (css "a::attr(href)" [item]) in
            if negb (truthy_opt link) then parse_items later
            else
              let article_url := bind link clean_url in
              let snippet_span := css ".lenta_textsmall" [item] in
              let snippet :=
                if nonempty snippet_span
                then strip (join (u " ") (getall (css "::text" snippet_span)))
                else u "" in
              let full_text := lower (title ++ u " " ++ snippet) in
              if is_presidential_appointment full_text then
                match article_url with
                | Some article_url =>
                    cons_request (ArticleRequest article_url title snippet item_date)
                                 (parse_items later)
                | None => parse_items later
                end
              else parse_items later
  end.

(** The loop over the [div.load_more] elements: the request for the next
    page, from the first element whose [onclick] names one. *)
Fixpoint next_page_request (load_more_divs : list node) (page : Z)
    : list request :=
  match load_more_divs with
  | [] => []
  | div :: later =>
      let onclick := get (css "::attr(onclick)" [div]) in
      match onclick with
      | Some onclick =>
          if truthy onclick && contains (u "get_page(") onclick then
            match search GET_PAGE_RE onclick with
            | Some url_match =>
                match group 1 url_match with
                | Some next_page_path =>
                    let next_page_path :=
                      replace (u "&amp;") (u "&") next_page_path in
                    let next_url := urljoin (u "https://belta.by") next_page_path in
                    [NewsListRequest next_url (page + 1) true]
                | None => []
                end
            | None => next_page_request later page
            end
          else next_page_request later page
      | None => next_page_request later page
      end
  end.

Definition parse_news_list_with (page : Z) (continue_loading : bool)
    (response : list node) : list request :=
  let news_items := css ".lenta_item" response in
  let '(requests, found_previous_day) := parse_items news_items in
  requests
  ++ (if continue_loading && negb found_previous_day
      then next_page_request (css "div.load_more" response) page
      else []).

End Listing.

Definition parse_news_list : Z -> bool -> list node -> list request :=
  parse_news_list_with extract_item_date.

Definition start_requests : list request :=
  [NewsListRequest (u "https://belta.by/all_news/") 1 true].

(** *** The engine *)

(** The engine is scrapy's. What the spider needs of it is modelled: a
    pending request is fetched, its callback runs on the response, the
    requests the callback yields become pending and the items it yields
    are emitted. [web] answers a URL with the response delivered to the
    callback, [None] when none is. Requests are served one at a time
    ([CONCURRENT_REQUESTS] is 1), here in the order they were yielded;
    [fuel] bounds the number of requests served. *)
Variable web : str -> option response.

Fixpoint crawl (fuel : nat) (pending : list request) (ticks : nat)
    : list Item.t :=
  match fuel with
  | O => []
  | S fuel' =>
      match pending with
      | [] => []
      | NewsListRequest url page continue_loading :: pending' =>
          match web url with
          | Some resp =>
              crawl fuel'
                (pending' ++ parse_news_list page continue_loading (response_root resp))
                ticks
          | None => crawl fuel' pending' ticks
          end
      | ArticleRequest url title snippet item_date :: pending' =>
          match web url with
          | Some resp =>
              let '(item, ticks') := parse_article title snippet item_date resp ticks in
              item :: crawl fuel' pending' ticks'
          | None => crawl fuel' pending' ticks
          end
      end
  end.

End BeltaSpider.

Arguments date_at selector%_string parse response.

(** A run of the spider: [__init__] reads the clock once for
    [self.today], then the start requests are served. *)
Definition run_spider (urljoin : str -> str -> str)
    (strptime : str -> str -> option datetime) (now : nat -> datetime)
    (web : str -> option response) (fuel : nat) : list Item.t :=
  crawl urljoin strptime now (now 0%nat) web fuel start_requests 1.

(* ===================================================================== *)
(** ** Specification vocabulary and sample pages *)
(* ===================================================================== *)

(** [needle] occurs in [hay]: the meaning of Python's [needle in hay]. *)
Definition occurs (needle hay : str) : Prop :=
  exists pre post, hay = pre ++ needle ++ post.

(** A listing item as the site marks it up: the date block with its day
    and month-year texts, the title, the link and the snippet. *)
Definition listing_item (day month_year title href snippet : str) : node :=
  elem [ (".new_date",
           [elem [ (".day::text", [Css.text day]);
                   (".month_year::text", [Css.text month_year]) ]]);
         (".lenta_item_title", [elem [ ("::text", [Css.text title]) ]]);
         ("a::attr(href)", [Css.text href]);
         (".lenta_textsmall", [elem [ ("::text", [Css.text snippet]) ]]) ]%string.

(** The first attempt that succeeds, in order. *)
Fixpoint first_some {A : Type} (attempts : list (option A)) : option A :=
  match attempts with
  | [] => None
  | Some a :: _ => Some a
  | None :: later => first_some later
  end.

(** The text node of an element reached by one selector. *)
Definition with_text (selector : String.string) (s : str)
    : String.string * list node :=
  (selector, [Css.text s]).

Arguments with_text selector%_string s.

(** An article page with a long-form date and a body of one text node. *)
Definition article_page (date_full body : str) : list node :=
  [elem [ with_text ".date_full::text" date_full;
          (article_body_selector, [elem [ with_text "::text" body ]]) ]].

(** Stand-ins for the library functions in the sample runs: no format
    of [strptime] applies, [urljoin] appends the path to the base. *)
Definition no_strptime (date_string fmt : str) : option datetime := None.
Definition join_path (base path : str) : str := base ++ path.

(** The sample clock: every reading is 9 January 2026, 12:00. *)
Definition noon (i : nat) : datetime := Datetime 2026 1 9 12 0 0 0.

(** The sample reference day, and an article whose title passes the
    classifier while its body does not. *)
Definition sample_today : datetime := Datetime 2026 1 9 8 30 0 0.
Definition sample_title : str := u "Президент назначил Ивана Петрова министром".
Definition sample_snippet : str := u "Подписан документ".
Definition sample_body : str :=
  u "Глава государства подписал документ. Иван Петров ранее работал в банке.".
Definition sample_url : str := u "https://belta.by/president/view/1".

Definition article_of_today : response :=
  Response sample_url (article_page (u "09 января 2026, 10:00") sample_body).
Definition article_of_yesterday : response :=
  Response sample_url (article_page (u "08 января 2026, 19:51") sample_body).

(** A listing page: its items and its load-more elements. *)
Definition load_more (onclick : str) : node :=
  elem [ with_text "::attr(onclick)" onclick ].

Definition listing_page (items more : list node) : list node :=
  [elem [ (".lenta_item", items); ("div.load_more", more) ]%string].

Definition sample_onclick : str :=
  u "return get_page('/all_news/page/2/?day=09&amp;month=01&amp;year=26/','inner','1');".

(** The sample listing: an item of the day before the reference day
    followed by an older item, both about an appointment, and a
    load-more element. *)
Definition item_of_yesterday : node :=
  listing_item (u "08") (u "01.26") sample_title (u "/president/view/1")
    sample_snippet.
Definition item_of_last_week : node :=
  listing_item (u "02") (u "01.26") (u "Указом Президента назначен новый посол")
    (u "/president/view/2") (u "").
Definition sample_listing : list node :=
  listing_page [item_of_yesterday; item_of_last_week] [load_more sample_onclick].

(** What a request has to satisfy to have come from the listing: an
    article request carries a title and a snippet that pass the
    classifier together. *)
Definition listed (title snippet : str) : bool :=
  is_presidential_appointment (lower (title ++ u " " ++ snippet)).

Definition request_listed (r : request) : Prop :=
  match r with
  | ArticleRequest _ title snippet _ => listed title snippet = true
  | NewsListRequest _ _ _ => True
  end.

Definition is_article_request (r : request) : bool :=
  match r with
  | ArticleRequest _ _ _ _ => true
  | NewsListRequest _ _ _ => false
  end.

Definition is_page_request (r : request) : bool := negb (is_article_request r).

(** The sample site: the start page is the listing of one item of the
    reference day, and its article is dated the day before. *)
Definition sample_web (url : str) : option response :=
  if str_eqb url (u "https://belta.by/all_news/")
  then Some (Response url
               (listing_page
                  [listing_item (u "09") (u "01.26") sample_title
                     (u "/president/view/1") sample_snippet] []))
  else if str_eqb url sample_url then Some article_of_yesterday
  else None.

(** The number of iterations [r{lo,hi}] allows. *)
Definition within (lo : nat) (hi : option nat) (n : nat) : Prop :=
  (lo <= n)%nat
  /\ match hi with
     | Some h => (n <= Nat.max lo h)%nat
     | None => True
     end.

(** The texts a pattern matches, whatever the order in which the
    matcher finds them. *)
Fixpoint matches (r : regex) (s : str) : Prop :=
  match r with
  | Eps => s = []
  | Chr p => exists c, s = [c] /\ p c = true
  | Cat r1 r2 => exists s1 s2, s = s1 ++ s2 /\ matches r1 s1 /\ matches r2 s2
  | Alt r1 r2 => matches r1 s \/ matches r2 s
  | Rep r1 lo hi _ =>
      exists parts,
        s = concat parts /\ Forall (matches r1) parts
        /\ within lo hi (length parts)
  | Grp _ r1 => matches r1 s
  end.

(** A capitalized Cyrillic token, a run of whitespace, and a candidate
    name: two or three capitalized tokens with whitespace between. *)
Definition capitalized (w : str) : Prop :=
  exists c cs,
    w = c :: cs /\ upper_cyr c = true /\ cs <> []
    /\ Forall (fun x => lower_cyr x = true) cs.

Definition blank (g : str) : Prop :=
  g <> [] /\ Forall (fun x => is_space x = true) g.

Definition fio_candidate (m : str) : Prop :=
  exists w1 g1 w2,
    capitalized w1 /\ blank g1 /\ capitalized w2
    /\ ((m = w1 ++ g1 ++ w2 /\ split m = [w1; w2])
        \/ exists g2 w3,
             blank g2 /\ capitalized w3
             /\ m = w1 ++ g1 ++ w2 ++ g2 ++ w3 /\ split m = [w1; w2; w3]).

(** A candidate survives when it contains no excluded word. *)
Definition survives (m : str) : bool :=
  negb (existsb (fun excluded => contains excluded m) excluded_words).

(** The candidate a position pattern gives: its first match, cleaned,
    when that is longer than five characters. *)
Definition position_candidate (full_text : str) (pattern : regex) : option str :=
  match hd_error (findall pattern full_text) with
  | Some first =>
      if Nat.ltb 5 (length (clean_position first))
      then Some (clean_position first)
      else None
  | None => None
  end.

(** The fragment a keyword gives: the first match of its pattern,
    stripped. *)
Definition keyword_fragment (full_text : str) (keyword : str) : option str :=
  option_map strip (hd_error (findall (keyword_pattern keyword) full_text)).

(** Two texts for [extract_position]: in the first the title noun of
    the first sentence comes later in [position_keywords] than the one
    of the second sentence; in the second the first match of the
    pattern that applies is too short and its second match is not. *)
Definition two_nouns : str := u "Он министр. Она председатель.".
Definition short_then_long : str := u "Назначен он. Назначен министром финансов.".

(** The fragments of a text between full stops, and the first of them,
    in the order of the text, that contains one of the keywords. *)
Definition fragments (full_text : str) : list str := split_sep (u ".") full_text.

Definition has_keyword (fragment : str) : bool :=
  existsb (fun keyword => contains keyword (lower fragment)) position_keywords.

(** The longest prefix of characters of a class, and what follows it. *)
Fixpoint take_while (p : char -> bool) (s : str) : str :=
  match s with
  | c :: s' => if p c then c :: take_while p s' else []
  | [] => []
  end.

Fixpoint drop_while (p : char -> bool) (s : str) : str :=
  match s with
  | c :: s' => if p c then drop_while p s' else s
  | [] => []
  end.

(** The threads of a greedy starred class: the prefixes of the longest
    run of the class, the longest first. *)
Fixpoint greedy_prefixes (p : char -> bool) (s : str) : list thread :=
  match s with
  | c :: s' =>
      if p c
      then map (fun a => Thread (c :: consumed a) (rest a) (caps a))
               (greedy_prefixes p s') ++ [stay s]
      else [stay s]
  | [] => [stay []]
  end.

Definition not_dot (c : char) : bool := negb (N.eqb c (ch ".")).

(** A keyword the fallback pattern can carry: not empty, and none of
    its characters is matched by a full stop. *)
Definition plain_keyword (keyword : str) : bool :=
  truthy keyword && forallb (fun c => negb (same_char true c (ch "."))) keyword.

(** A text starts with a literal, as [lit] matches it. *)
Fixpoint lit_prefix (ic : bool) (k s : str) : bool :=
  match k with
  | [] => true
  | c :: k' =>
      match s with
      | [] => false
      | x :: s' => same_char ic c x && lit_prefix ic k' s'
      end
  end.

(** A fragment mentions a keyword when the keyword, as a literal under
    [re.IGNORECASE], starts somewhere in it. *)
Fixpoint mentions (keyword fragment : str) : bool :=
  lit_prefix true keyword fragment
  || match fragment with
     | [] => false
     | _ :: later => mentions keyword later
     end.

(** The inside of the group of [keyword_pattern]. *)
Definition fragment_body (keyword : str) : regex :=
  Cat (star (Chr not_dot)) (Cat (lit true keyword) (star (Chr not_dot))).

(** The appointment patterns that do not contain another one. *)
Definition CORE_APPOINTMENT_PATTERNS : list str :=
  map u [ "президент назначил"; "освобожден от должности";
          "освобождён от должности"; "назначен"; "присвоено звание";
          "присвоен класс"; "кадровые решения"; "перемещение"; "увольнение";
          "отставка" ]%string.

(** A listing with an item of the reference day before the two older
    items of the sample listing, and an extractor for the runs of the
    item loop on it: the day of an item from its day text, in January
    2026. *)
Definition day_of_january (item : node) : option datetime :=
  day <- get (css ".day::text" (css ".new_date" [item])) ;;
  day_int <- int (strip day) ;;
  make 2026 1 day_int 0 0.

Definition item_of_today : node :=
  listing_item (u "09") (u "01.26") (u "Президент назначил нового министра")
    (u "/president/view/0") (u "").

Definition boundary_listing : list node :=
  listing_page [item_of_today; item_of_yesterday; item_of_last_week]
    [load_more sample_onclick].

(** The capitalized token that starts a text, and what follows it: a
    capital Cyrillic letter and the longest run of small ones after it,
    one at least. *)
Definition word_at (s : str) : option (str * str) :=
  match s with
  | c :: s' =>
      if upper_cyr c && truthy (take_while lower_cyr s')
      then Some (c :: take_while lower_cyr s', drop_while lower_cyr s')
      else None
  | [] => None
  end.

(** The whitespace that starts a text, one character at least, with the
    capitalized token after it. *)
Definition next_word_at (s : str) : option (str * str) :=
  if truthy (take_while is_space s) then
    match word_at (drop_while is_space s) with
    | Some (w, r) => Some (take_while is_space s ++ w, r)
    | None => None
    end
  else None.

(** The candidate that starts a text: two capitalized tokens, and the
    third one when there is one. *)
Definition fio_at (s : str) : option (str * str) :=
  match word_at s with
  | Some (w1, r1) =>
      match next_word_at r1 with
      | Some (w2, r2) =>
          match next_word_at r2 with
          | Some (w3, r3) => Some (w1 ++ w2 ++ w3, r3)
          | None => Some (w1 ++ w2, r2)
          end
      | None => None
      end
  | None => None
  end.

(** The candidates of a text in one pass from the left: a position
    gives the candidate that starts there, the pass goes on after the
    candidate ([skip] of its characters are still to be passed), and a
    position that starts no candidate is passed over. *)
Fixpoint fio_candidates_from (s : str) (skip : nat) : list str :=
  match s with
  | [] => []
  | _ :: s' =>
      match skip with
      | S k => fio_candidates_from s' k
      | O =>
          match fio_at s with
          | Some (m, _) => m :: fio_candidates_from s' (pred (length m))
          | None => fio_candidates_from s' 0
          end
      end
  end.

Definition fio_candidates (s : str) : list str := fio_candidates_from s 0.

(** Threads of the matcher: one with a text put before what it
    consumed, and the ones of a token and of a whole match. *)
Definition prepend (g : str) (a : thread) : thread :=
  Thread (g ++ consumed a) (rest a) (caps a).

Definition as_thread (found : str * str) : thread := Thread (fst found) (snd found) [].

Definition as_match (found : str * str) : thread :=
  Thread (fst found) (snd found) [(1%nat, fst found)].

(** The parts of [FIO_PATTERN] after its first token. *)
Definition gap_word : regex := Cat (plus ws) cap_word.

Definition names_tail : regex := times 1 2 gap_word.

(** Two texts for [extract_fio]: a name right after an institution, and
    a name whose second token begins with an excluded word. *)
Definition institution_then_name : str :=
  u "Совет Министров Республики Беларусь Иван Петров".
Definition name_with_stem : str := u "Пётр Советников".


(* ===================================================================== *)
(** ** Facts about strings *)
(* ===================================================================== *)

Lemma startswith_iff (p s : str) :
  startswith p s = true <-> exists post, s = p ++ post.
Proof.
  revert s; induction p as [|a p IH]; intros s; simpl.
  - split; [intros _; now exists s | reflexivity].
  - destruct s as [|b s]; simpl.
    + split; [discriminate | intros [post H]; discriminate].
    + rewrite andb_true_iff, N.eqb_eq, IH. split.
      * intros [-> [post ->]]. now exists post.
      * intros [post H]. injection H as -> ->. split; [reflexivity | now exists post].
Qed.

Lemma contains_iff (needle hay : str) :
  contains needle hay = true <-> occurs needle hay.
Proof.
  unfold occurs. induction hay as [|c hay IH]; simpl.
  - rewrite orb_false_r, startswith_iff. split.
    + intros [post H]. now exists [], post.
    + intros [pre [post H]]. destruct pre; [now exists post|discriminate].
  - rewrite orb_true_iff, startswith_iff, IH. split.
    + intros [[post H] | [pre [post H]]].
      * now exists [], post.
      * exists (c :: pre), post. now rewrite H.
    + intros [[|c' pre] [post H]].
      * left. now exists post.
      * right. injection H as _ H. now exists pre, post.
Qed.

Lemma contains_false_iff (needle hay : str) :
  contains needle hay = false <-> ~ occurs needle hay.
Proof.
  rewrite <- contains_iff. destruct (contains needle hay); split; congruence.
Qed.

Lemma existsb_contains_iff (words : list str) (hay : str) :
  existsb (fun w => contains w hay) words = true
  <-> exists w, In w words /\ occurs w hay.
Proof.
  rewrite existsb_exists. split; intros [w [Hin H]]; exists w; split; trivial;
    now apply contains_iff.
Qed.

(* ===================================================================== *)
(** ** The classifier *)
(* ===================================================================== *)

(** C4. [is_presidential_appointment text] is true exactly when the
    lowercased text contains one of [RELEVANT_CATEGORIES] as a substring
    and one of [APPOINTMENT_PATTERNS] as a substring. In particular a
    text whose lowercased form contains the category keyword of the
    decree but no appointment keyword is rejected, and one that contains
    that keyword and the appointment keyword of the example is
    accepted. *)
Theorem is_presidential_appointment_iff :
  (forall text,
      is_presidential_appointment text = true
      <-> (exists category,
              In category RELEVANT_CATEGORIES /\ occurs category (lower text))
          /\ (exists pattern,
                 In pattern APPOINTMENT_PATTERNS /\ occurs pattern (lower text)))
  /\ (forall text,
         occurs (u "указ") (lower text) ->
         (forall pattern,
             In pattern APPOINTMENT_PATTERNS -> ~ occurs pattern (lower text)) ->
         is_presidential_appointment text = false)
  /\ (forall text,
         occurs (u "указ") (lower text) ->
         occurs (u "назначение") (lower text) ->
         is_presidential_appointment text = true).
Proof.
  assert (Hiff : forall text,
      is_presidential_appointment text = true
      <-> (exists category,
              In category RELEVANT_CATEGORIES /\ occurs category (lower text))
          /\ (exists pattern,
                 In pattern APPOINTMENT_PATTERNS /\ occurs pattern (lower text))).
  { intros text. unfold is_presidential_appointment.
    cbv zeta. rewrite andb_true_iff, !existsb_contains_iff. reflexivity. }
  split; [exact Hiff | split].
  - intros text _ Hnone.
    destruct (is_presidential_appointment text) eqn:E; [|reflexivity].
    apply Hiff in E. destruct E as [_ [pattern [Hin Hocc]]].
    now destruct (Hnone pattern Hin).
  - intros text Hcat Happ. apply Hiff. split.
    + exists (u "указ"). split; [|exact Hcat].
      unfold RELEVANT_CATEGORIES. apply in_map.
      cbn [In]. repeat (first [left; reflexivity | right]).
    + exists (u "назначение"). split; [|exact Happ].
      unfold APPOINTMENT_PATTERNS. apply in_map.
      cbn [In]. repeat (first [left; reflexivity | right]).
Qed.

(** The two examples of the classifier's description, evaluated. *)
Example classify_decree_alone :
  is_presidential_appointment (u "Подписан Указ о мерах поддержки") = false.
Proof. vm_compute. reflexivity. Qed.

Example classify_decree_and_appointment :
  is_presidential_appointment (u "Указ: НАЗНАЧЕНИЕ нового посла") = true.
Proof. vm_compute. reflexivity. Qed.

(* ===================================================================== *)
(** ** The date of a listing item *)
(* ===================================================================== *)

Lemma lstrip_by_Forall (P : char -> Prop) (p : char -> bool) (s : str) :
  Forall P s -> Forall P (lstrip_by p s).
Proof.
  induction 1 as [|c s Hc Hs IH]; simpl; [constructor|].
  destruct (p c); [exact IH | now constructor].
Qed.

Lemma rstrip_by_Forall (P : char -> Prop) (p : char -> bool) (s : str) :
  Forall P s -> Forall P (rstrip_by p s).
Proof.
  intros H. unfold rstrip_by. apply Forall_rev, lstrip_by_Forall, Forall_rev, H.
Qed.

Lemma strip_Forall (P : char -> Prop) (s : str) :
  Forall P s -> Forall P (strip s).
Proof.
  intros H. unfold strip. now apply rstrip_by_Forall, lstrip_by_Forall.
Qed.

(** Replacing a one-character string by the empty string removes every
    occurrence of the character. *)
Lemma replace_char_by_empty (c : char) (s : str) :
  Forall (fun x => x <> c) (replace [c] [] s).
Proof.
  unfold replace. induction s as [|x s IH]; simpl; [constructor|].
  destruct (N.eqb_spec c x) as [->|Hne]; simpl.
  - exact IH.
  - constructor; [congruence | exact IH].
Qed.

(** Splitting on a character that does not occur gives one field. *)
Lemma split_from_absent (c : char) (s cur : str) :
  Forall (fun x => x <> c) s -> split_from [c] s 0 cur = [rev cur ++ s].
Proof.
  intros H. revert cur. induction H as [|x s Hx Hs IH]; intros cur; simpl.
  - now rewrite app_nil_r.
  - destruct (N.eqb_spec c x) as [->|Hne]; [congruence|]. simpl.
    rewrite IH. simpl. now rewrite <- app_assoc.
Qed.

Lemma split_sep_absent (c : char) (s : str) :
  Forall (fun x => x <> c) s -> split_sep [c] s = [s].
Proof. intros H. unfold split_sep. now rewrite split_from_absent. Qed.

(** Whatever the month-year text, once its full stops are removed it
    splits into one part on the full stop, not two. *)
Lemma month_year_parts (month_year : str) :
  length (split_sep (u ".") (strip (replace (u ".") (u "") (strip month_year)))) = 1%nat.
Proof.
  change (u ".") with [ch "."]. change (u "") with (@nil char).
  rewrite split_sep_absent; [reflexivity|].
  apply strip_Forall, replace_char_by_empty.
Qed.

(** [extract_item_date] returns [None] for every listing item: the
    branch that builds the date is behind [len(parts) == 2]. *)
Lemma extract_item_date_none (item : node) : extract_item_date item = None.
Proof.
  unfold extract_item_date. cbv zeta.
  destruct (nonempty _); [|reflexivity].
  destruct (get (css ".day::text" _)) as [day|]; [|reflexivity].
  destruct (get (css ".month_year::text" _)) as [month_year|];
    [|now rewrite andb_false_r].
  destruct (truthy_opt (Some day) && truthy_opt (Some month_year)); [|reflexivity].
  cbn [bind]. now rewrite month_year_parts.
Qed.

(** C2. On the two listing dates of the description, day 09 with
    month-year 01.26 and day 15 with month-year 06.72, the code returns
    no date at all, where the pivot rule gives 2026-01-09 and
    1972-06-15. *)
Theorem extract_item_date_loses_documented_dates :
  forall title href snippet,
    extract_item_date (listing_item (u "09") (u "01.26") title href snippet) = None
    /\ extract_item_date (listing_item (u "15") (u "06.72") title href snippet) = None.
Proof. intros. split; apply extract_item_date_none. Qed.

(* ===================================================================== *)
(** ** The article callback *)
(* ===================================================================== *)

Section Article.

Variable strptime : str -> str -> option datetime.
Variable now : nat -> datetime.
Variable today : datetime.

Lemma date_by_selector_first_some (selectors : list String.string)
    (response : list node) :
  date_by_selector strptime selectors response
  = first_some
      (map (fun selector => date_at selector (parse_date_string strptime) response)
           selectors).
Proof.
  induction selectors as [|selector later IH]; simpl; [reflexivity|].
  now destruct (date_at selector _ response).
Qed.

Lemma date_by_format_first_some (formats : list str) (date_string : str) :
  date_by_format strptime formats date_string
  = first_some (map (strptime date_string) formats).
Proof.
  induction formats as [|fmt later IH]; simpl; [reflexivity|].
  now destruct (strptime date_string fmt).
Qed.

Lemma first_some_app {A : Type} (xs ys : list (option A)) :
  first_some (xs ++ ys)
  = match first_some xs with
    | Some a => Some a
    | None => first_some ys
    end.
Proof.
  induction xs as [|[a|] xs IH]; simpl; trivial.
Qed.

(** [extract_article_date] always returns a date, and reads the clock
    only for its default. *)
Lemma extract_article_date_some (response : list node) (ticks : nat) :
  exists d, fst (extract_article_date strptime now response ticks) = Some d.
Proof.
  unfold extract_article_date.
  destruct (date_at _ parse_date_full_format response) as [d|]; [now exists d|].
  destruct (date_by_selector _ _ response) as [d|]; [now exists d|].
  now exists (now ticks).
Qed.

(** The dictionary [parse_article] yields, field by field, from the
    publication date and the outcome of the two passes. *)
Lemma parse_article_item (title snippet : str) (item_date : option datetime)
    (resp : response) (ticks : nat) :
  let pub_date := fst (extract_article_date strptime now (response_root resp) ticks) in
  let passes :=
    article_relevance title (check_is_today today pub_date) (response_root resp) in
  let item :=
    fst (parse_article strptime now today title snippet item_date resp ticks) in
  Item.title item = title
  /\ Item.url item = response_url resp
  /\ Item.snippet item = snippet
  /\ Item.publication_date item = option_map isoformat pub_date
  /\ Item.is_today item = check_is_today today pub_date
  /\ Item.relevant item = fst passes
  /\ Item.raw_content item
     = match snd passes with
       | Some c => if truthy c then firstn 1000 c else u ""
       | None => u ""
       end
  /\ (fst passes = false ->
      Item.fio item = None /\ Item.position item = None
      /\ Item.notification_header item = None
      /\ Item.notification_text item = None
      /\ Item.notification_source item = None)
  /\ (fst passes = true ->
      exists fio position,
        Item.fio item = Some fio /\ Item.position item = Some position
        /\ Item.notification_header item
           = Some (header (create_notification fio position (response_url resp)))
        /\ Item.notification_text item
           = Some (text (create_notification fio position (response_url resp)))
        /\ Item.notification_source item
           = Some (source (create_notification fio position (response_url resp)))).
Proof.
  cbv zeta. unfold parse_article.
  destruct (extract_article_date strptime now (response_root resp) ticks)
    as [pub_date ticks'].
  cbn [fst snd].
  destruct (article_relevance title (check_is_today today pub_date)
              (response_root resp)) as [relevant article_content].
  cbn [fst snd].
  destruct relevant; cbn; repeat split; try discriminate; intros _.
  eexists. eexists. repeat split.
Qed.

(** The two passes: the outcome is the title pass or the body pass, and
    the body text is extracted exactly when the title pass fails. *)
Lemma article_relevance_passes (title : str) (is_today : bool)
    (response : list node) :
  let title_pass := is_today && is_presidential_appointment title in
  let body := extract_article_content response in
  fst (article_relevance title is_today response)
  = title_pass || is_presidential_appointment body
  /\ snd (article_relevance title is_today response)
     = if title_pass then None else Some body.
Proof.
  cbv zeta. unfold article_relevance.
  destruct (is_today && is_presidential_appointment title); [now split|].
  now destruct (is_presidential_appointment (extract_article_content response)).
Qed.

End Article.

(** C1. The relevance flag of the yielded dictionary is the title pass,
    gated by the publication date falling on the reference day, or the
    body pass, which has no date gate. When the publication date is
    another day the flag is the body pass alone, whatever the title, and
    the body text is extracted; when the title pass succeeds the body
    text is never extracted. *)
Theorem parse_article_two_pass_relevance :
  forall strptime now today title snippet item_date resp ticks,
    let root := response_root resp in
    let body := extract_article_content root in
    let item :=
      fst (parse_article strptime now today title snippet item_date resp ticks) in
    exists pub_date,
      fst (extract_article_date strptime now root ticks) = Some pub_date
      /\ Item.is_today item = date_eq pub_date today
      /\ Item.relevant item
         = (date_eq pub_date today && is_presidential_appointment title)
           || is_presidential_appointment body
      /\ (date_eq pub_date today = false ->
          Item.relevant item = is_presidential_appointment body
          /\ snd (article_relevance title (date_eq pub_date today) root) = Some body)
      /\ (date_eq pub_date today && is_presidential_appointment title = true ->
          Item.relevant item = true
          /\ snd (article_relevance title (date_eq pub_date today) root) = None)
      /\ (date_eq pub_date today && is_presidential_appointment title = false ->
          snd (article_relevance title (date_eq pub_date today) root) = Some body).
Proof.
  intros strptime now today title snippet item_date resp ticks root body item.
  destruct (extract_article_date_some strptime now root ticks) as [pub_date Hpub].
  exists pub_date. split; [exact Hpub|].
  pose proof (parse_article_item strptime now today title snippet item_date resp ticks)
    as H.
  cbv zeta in H. fold root in H. rewrite Hpub in H. cbn [check_is_today] in H.
  destruct H as (_ & _ & _ & _ & Htoday & Hrel & _).
  pose proof (article_relevance_passes title (date_eq pub_date today) root) as P.
  cbv zeta in P. fold body in P. destruct P as [Pfst Psnd].
  fold item in Htoday, Hrel.
  split; [exact Htoday|]. rewrite Hrel, Pfst, Psnd.
  split; [reflexivity|].
  split; [intros Hgate; rewrite Hgate; split; reflexivity|].
  split; [intros Hgate; rewrite Hgate; split; reflexivity|].
  intros Hgate; rewrite Hgate; reflexivity.
Qed.

(** The asymmetry of the two passes on the sample article: published the
    day before the reference day, its title passes the classifier and
    its body does not, and it is not relevant; published on the reference
    day it is. *)
Example yesterday_title_does_not_count :
  Item.relevant
    (fst (parse_article no_strptime noon sample_today sample_title sample_snippet
            None article_of_yesterday 1)) = false
  /\ Item.relevant
       (fst (parse_article no_strptime noon sample_today sample_title sample_snippet
               None article_of_today 1)) = true
  /\ is_presidential_appointment sample_title = true.
Proof. vm_compute. repeat split. Qed.

(** C5. [extract_article_date] is an ordered list of attempts closed by
    a default that cannot fail: the long-form date element, then each
    fallback selector in the order of [date_selectors], then the current
    instant. A fallback text is parsed by the formats in the order of
    [date_formats] and then by the month-name search. So the function
    always returns a date, and [publication_date] of the yielded
    dictionary is never [None]. *)
Theorem extract_article_date_never_absent :
  forall strptime now today title snippet item_date resp ticks,
    let root := response_root resp in
    let item :=
      fst (parse_article strptime now today title snippet item_date resp ticks) in
    fst (extract_article_date strptime now root ticks)
    = first_some
        (date_at ".date_full::text" parse_date_full_format root
         :: map (fun selector => date_at selector (parse_date_string strptime) root)
                date_selectors
         ++ [Some (now ticks)])
    /\ (forall date_text,
           truthy date_text = true ->
           parse_date_string strptime date_text
           = first_some
               (map (strptime (strip date_text)) date_formats
                ++ [date_by_month_name (strip date_text)]))
    /\ exists pub_date,
         fst (extract_article_date strptime now root ticks) = Some pub_date
         /\ Item.publication_date item = Some (isoformat pub_date).
Proof.
  intros strptime now today title snippet item_date resp ticks root item.
  split; [|split].
  - unfold extract_article_date. cbn [first_some].
    destruct (date_at _ parse_date_full_format root) as [d|]; [reflexivity|].
    rewrite first_some_app, <- date_by_selector_first_some.
    now destruct (date_by_selector strptime date_selectors root).
  - intros date_text Htruthy. unfold parse_date_string. rewrite Htruthy. cbn [negb].
    rewrite first_some_app, <- date_by_format_first_some.
    destruct (date_by_format strptime date_formats (strip date_text));
      [reflexivity|].
    cbn [first_some]. now destruct (date_by_month_name (strip date_text)).
  - destruct (extract_article_date_some strptime now root ticks) as [pub_date Hpub].
    exists pub_date. split; [exact Hpub|].
    pose proof (parse_article_item strptime now today title snippet item_date
                  resp ticks) as H.
    cbv zeta in H. fold root in H. rewrite Hpub in H.
    now destruct H as (_ & _ & _ & Hdate & _).
Qed.

(** The long-form date of the site, and a page with no date at all. *)
Example date_full_is_parsed :
  parse_date_full_format (u "08 января 2026, 19:51")
  = Some (Datetime 2026 1 8 19 51 0 0).
Proof. vm_compute. reflexivity. Qed.

Example date_defaults_to_now :
  extract_article_date no_strptime noon [elem []] 3 = (Some (noon 3), 4%nat).
Proof. vm_compute. reflexivity. Qed.

(** C8. In the yielded dictionary the name, the position and the three
    notification fields are [None] exactly when the article is not
    relevant. When it is relevant the header is the constant header and
    the source is the URL of the article, which is also the [url] field.
    [create_notification] depends on its three arguments only: its
    header is the constant, its text the template around the name and
    the position, its source the URL. *)
Theorem notification_fields_follow_relevance :
  forall strptime now today title snippet item_date resp ticks,
    let item :=
      fst (parse_article strptime now today title snippet item_date resp ticks) in
    (Item.relevant item = false <-> Item.fio item = None)
    /\ (Item.relevant item = false <-> Item.position item = None)
    /\ (Item.relevant item = false <-> Item.notification_header item = None)
    /\ (Item.relevant item = false <-> Item.notification_text item = None)
    /\ (Item.relevant item = false <-> Item.notification_source item = None)
    /\ (Item.relevant item = true ->
        Item.notification_header item = Some NOTIFICATION_HEADER
        /\ Item.notification_source item = Some (response_url resp)
        /\ Item.url item = response_url resp
        /\ exists fio position,
             Item.fio item = Some fio /\ Item.position item = Some position
             /\ Item.notification_text item
                = Some (text (create_notification fio position (response_url resp))))
    /\ (forall fio position url,
           create_notification fio position url
           = Notification NOTIFICATION_HEADER
               (u "Опубликовано новое кадровое решение: " ++ fio
                ++ u ", назначен(а) на должность " ++ position
                ++ u ". Необходимо подготовить поздравление.")
               url).
Proof.
  intros strptime now today title snippet item_date resp ticks item.
  pose proof (parse_article_item strptime now today title snippet item_date
                resp ticks) as H.
  cbv zeta in H. fold item in H.
  destruct H as (_ & Hurl & _ & _ & _ & Hrel & _ & Hno & Hyes).
  rewrite <- Hrel in Hno, Hyes.
  destruct (Item.relevant item).
  - destruct (Hyes eq_refl) as (fio & position & -> & -> & -> & -> & ->).
    cbn [header source].
    repeat (split; try discriminate; try reflexivity; try assumption).
    exists fio, position. repeat split.
  - destruct (Hno eq_refl) as (-> & -> & -> & -> & ->).
    repeat (split; try discriminate; try reflexivity).
Qed.

(** C9, as the code has it. [raw_content] is the first 1000 characters
    of the extracted body text when the body pass ran, that is when the
    title pass did not succeed. When the title pass succeeded the body
    text was never extracted and [raw_content] is the empty string. *)
Theorem raw_content_follows_body_pass :
  forall strptime now today title snippet item_date resp ticks,
    let root := response_root resp in
    let item :=
      fst (parse_article strptime now today title snippet item_date resp ticks) in
    Item.raw_content item
    = if Item.is_today item && is_presidential_appointment title
      then u ""
      else firstn 1000 (extract_article_content root).
Proof.
  intros strptime now today title snippet item_date resp ticks root item.
  pose proof (parse_article_item strptime now today title snippet item_date
                resp ticks) as H.
  cbv zeta in H. fold item root in H.
  destruct H as (_ & _ & _ & _ & Htoday & _ & Hraw & _).
  rewrite Hraw, Htoday.
  pose proof (article_relevance_passes title
                (check_is_today today
                   (fst (extract_article_date strptime now root ticks))) root) as P.
  cbv zeta in P. destruct P as [_ ->].
  destruct (check_is_today today _ && is_presidential_appointment title);
    [reflexivity|].
  now destruct (extract_article_content root).
Qed.

(** C9 as stated fails on the sample article of the reference day: its
    title passes, so the body text, which is not empty, is never
    extracted and [raw_content] is empty. *)
Lemma raw_content_is_not_always_the_body :
  let item :=
    fst (parse_article no_strptime noon sample_today sample_title sample_snippet
           None article_of_today 1) in
  extract_article_content (response_root article_of_today) = sample_body
  /\ Item.raw_content item = u ""
  /\ Item.raw_content item
     <> firstn 1000 (extract_article_content (response_root article_of_today)).
Proof.
  vm_compute. repeat split. discriminate.
Qed.

(* ===================================================================== *)
(** ** The listing callback *)
(* ===================================================================== *)

Section ListingFacts.

Variable urljoin : str -> str -> str.
Variable today : datetime.
Variable item_date_of : node -> option datetime.

Local Abbreviation items_loop := (parse_items urljoin today item_date_of).

(** Every request of the item loop is an article request whose title
    and snippet pass the classifier. *)
Lemma parse_items_listed (news_items : list node) (r : request) :
  In r (fst (items_loop news_items)) ->
  is_article_request r = true /\ request_listed r.
Proof.
  induction news_items as [|item later IH]; [intros []|].
  cbn [parse_items]. cbv zeta.
  repeat match goal with
         | |- context [if ?b then _ else _] => destruct b eqn:?
         | |- context [match ?o with Some _ => _ | None => _ end] => destruct o eqn:?
         end;
    try exact IH; cbn [cons_request fst In]; intros Hr;
    first [ destruct Hr as [Hr | Hr] | destruct Hr ].
  all: try (apply IH; exact Hr).
  all: subst r; split; [reflexivity | assumption].
Qed.

(** The loop stops at the first item dated before the reference day:
    what follows it on the page is not looked at, and
    [found_previous_day] is set. *)
Lemma parse_items_stops (before later : list node) (item : node) (d : datetime) :
  item_date_of item = Some d ->
  date_lt d today = true ->
  items_loop (before ++ item :: later) = (fst (items_loop before), true).
Proof.
  intros Hdate Hlt. induction before as [|item' before IH].
  - cbn. now rewrite Hdate, Hlt.
  - cbn [app parse_items]. cbv zeta.
    repeat match goal with
           | |- context [if ?b then _ else _] => destruct b eqn:?
           | |- context [match ?o with Some _ => _ | None => _ end] => destruct o eqn:?
           end;
      try exact IH; try reflexivity.
    all: rewrite IH; reflexivity.
Qed.

(** Once [found_previous_day] is set, the page yields the article
    requests of the items before the boundary and no request for a
    further page. *)
Lemma parse_news_list_stops (page : Z) (continue_loading : bool)
    (response before later : list node) (item : node) (d : datetime) :
  css ".lenta_item" response = before ++ item :: later ->
  item_date_of item = Some d ->
  date_lt d today = true ->
  parse_news_list_with urljoin today item_date_of page continue_loading response
  = fst (items_loop before)
  /\ forallb is_article_request
       (parse_news_list_with urljoin today item_date_of page continue_loading response)
     = true.
Proof.
  intros Hitems Hdate Hlt. unfold parse_news_list_with. cbv zeta.
  rewrite Hitems, (parse_items_stops before later Hdate Hlt).
  rewrite andb_false_r, app_nil_r. split; [reflexivity|].
  apply forallb_forall. intros r Hr. now apply parse_items_listed in Hr.
Qed.

Lemma next_page_request_listed (load_more_divs : list node) (page : Z) (r : request) :
  In r (next_page_request urljoin load_more_divs page) -> request_listed r.
Proof.
  induction load_more_divs as [|div later IH]; [intros []|].
  cbn [next_page_request]. cbv zeta.
  repeat match goal with
         | |- context [if ?b then _ else _] => destruct b eqn:?
         | |- context [match ?o with Some _ => _ | None => _ end] => destruct o eqn:?
         end;
    try exact IH; intros Hr;
    first [ destruct Hr as [<- | []]; exact I | destruct Hr ].
Qed.

Lemma parse_news_list_with_listed (page : Z) (continue_loading : bool)
    (response : list node) (r : request) :
  In r (parse_news_list_with urljoin today item_date_of page continue_loading response) ->
  request_listed r.
Proof.
  unfold parse_news_list_with. cbv zeta.
  destruct (items_loop (css ".lenta_item" response)) as [requests found] eqn:E.
  intros Hin. apply in_app_or in Hin. destruct Hin as [Hin | Hin].
  - apply (parse_items_listed (css ".lenta_item" response)). now rewrite E.
  - destruct (continue_loading && negb found); [|destruct Hin].
    now apply next_page_request_listed in Hin.
Qed.

End ListingFacts.

(** The loop over the load-more elements yields nothing or one request,
    for the page after the current one, with [continue_loading] set. *)
Lemma next_page_request_shape (urljoin : str -> str -> str)
    (load_more_divs : list node) (page : Z) :
  next_page_request urljoin load_more_divs page = []
  \/ exists next_page_path,
       next_page_request urljoin load_more_divs page
       = [NewsListRequest
            (urljoin (u "https://belta.by")
               (replace (u "&amp;") (u "&") next_page_path))
            (page + 1) true].
Proof.
  induction load_more_divs as [|div later IH]; [now left|].
  cbn [next_page_request]. cbv zeta.
  destruct (get (css "::attr(onclick)" [div])) as [onclick|]; [|exact IH].
  destruct (truthy onclick && contains (u "get_page(") onclick); [|exact IH].
  destruct (search GET_PAGE_RE onclick) as [url_match|]; [|exact IH].
  destruct (group 1 url_match) as [next_page_path|]; [|now left].
  right. now exists next_page_path.
Qed.

(** A page yields at most one request for a listing page. *)
Lemma no_page_request (rs : list request) :
  forallb is_article_request rs = true -> filter is_page_request rs = [].
Proof.
  induction rs as [|r rs IH]; [reflexivity|]. cbn [forallb filter].
  rewrite andb_true_iff. intros [Hr Hrs]. unfold is_page_request at 1.
  rewrite Hr. cbn [negb]. now apply IH.
Qed.

Lemma parse_news_list_with_one_page (urljoin : str -> str -> str) (today : datetime)
    (item_date_of : node -> option datetime) (page : Z) (continue_loading : bool)
    (response : list node) :
  (length (filter is_page_request
             (parse_news_list_with urljoin today item_date_of page continue_loading
                response)) <= 1)%nat.
Proof.
  unfold parse_news_list_with. cbv zeta.
  destruct (parse_items urljoin today item_date_of (css ".lenta_item" response))
    as [requests found] eqn:E.
  rewrite filter_app, no_page_request, app_nil_l.
  - destruct (continue_loading && negb found); [|cbn; lia].
    destruct (next_page_request_shape urljoin (css "div.load_more" response) page)
      as [-> | [path ->]]; cbn; lia.
  - apply forallb_forall. intros r Hr.
    apply (@parse_items_listed urljoin today item_date_of (css ".lenta_item" response)).
    now rewrite E.
Qed.

(** With the date extractor of the spider, [found_previous_day] is never
    set: no item has a date. *)
Lemma found_previous_day_never_set (urljoin : str -> str -> str)
    (today : datetime) (news_items : list node) :
  snd (parse_items urljoin today extract_item_date news_items) = false.
Proof.
  induction news_items as [|item later IH]; [reflexivity|].
  cbn [parse_items]. cbv zeta. rewrite extract_item_date_none.
  repeat match goal with
         | |- context [if ?b then _ else _] => destruct b eqn:?
         | |- context [match ?o with Some _ => _ | None => _ end] => destruct o eqn:?
         end;
    exact IH.
Qed.

(** The stop at the boundary, run with an extractor that dates every
    item the day before the reference day: the sample listing yields
    nothing, neither an article request nor the next page. *)
Example boundary_stops_a_dating_extractor :
  parse_news_list_with join_path sample_today
    (fun _ => Some (Datetime 2026 1 8 0 0 0 0)) 1 true sample_listing = [].
Proof. vm_compute. reflexivity. Qed.

(** With the extractor of the spider no item has a known date. On the
    sample listing, whose first item is marked up with the day before
    the reference day, the spider goes on: it requests the article of
    that item and of the older item after it, and the next listing
    page. On no page at all does it find a previous day. *)
Theorem boundary_is_never_detected :
  parse_news_list join_path sample_today 1 true sample_listing
  = [ ArticleRequest (u "https://belta.by/president/view/1") sample_title
        sample_snippet None;
      ArticleRequest (u "https://belta.by/president/view/2")
        (u "Указом Президента назначен новый посол") (u "") None;
      NewsListRequest
        (u "https://belta.by/all_news/page/2/?day=09&month=01&year=26/") 2 true ]
  /\ forall urljoin today news_items,
       snd (parse_items urljoin today extract_item_date news_items) = false.
Proof.
  split; [vm_compute; reflexivity | exact found_previous_day_never_set].
Qed.

(** C3. Whatever extractor gives the items their dates: once an item of
    a listing page has a known date and that date is a day earlier than
    the reference day, the item loop ends there with
    [found_previous_day] set, and [parse_news_list] yields what the
    items before that one gave and nothing more. The result does not
    depend on the items after the boundary nor on the load-more elements
    of the page, and every request in it is an article request: no
    request for a further listing page is yielded, whatever
    [continue_loading] says. Any page yields at most one request for a
    listing page, and an article yields none; so a crawl, which starts
    from one listing request, has at most one of them pending, and none
    once a page has crossed the boundary. *)
Theorem boundary_stops_items_and_paging :
  forall urljoin today item_date_of page continue_loading response
         before item later d,
    css ".lenta_item" response = before ++ item :: later ->
    item_date_of item = Some d ->
    date_lt d today = true ->
    parse_items urljoin today item_date_of (before ++ item :: later)
    = (fst (parse_items urljoin today item_date_of before), true)
    /\ parse_news_list_with urljoin today item_date_of page continue_loading response
       = fst (parse_items urljoin today item_date_of before)
    /\ forallb is_article_request
         (parse_news_list_with urljoin today item_date_of page continue_loading
            response)
       = true
    /\ (forall any_page any_flag any_response,
           (length (filter is_page_request
                      (parse_news_list_with urljoin today item_date_of any_page
                         any_flag any_response)) <= 1)%nat).
Proof.
  intros urljoin today item_date_of page continue_loading response
         before item later d Hitems Hdate Hlt.
  split; [now apply parse_items_stops with (d := d)|].
  rewrite <- and_assoc. split; [|intros; apply parse_news_list_with_one_page].
  now apply parse_news_list_stops with (before := before) (item := item)
                                      (later := later) (d := d).
Qed.

(** On a page with an item of the reference day, then an item of the day
    before and an older one, and a load-more element: the article of
    the first item is requested, and nothing else. *)
Lemma boundary_stops_items_and_paging_witness :
  parse_news_list_with join_path sample_today day_of_january 1 true boundary_listing
  = [ ArticleRequest (u "https://belta.by/president/view/0")
        (u "Президент назначил нового министра") (u "")
        (Some (Datetime 2026 1 9 0 0 0 0)) ].
Proof.
  destruct (boundary_stops_items_and_paging join_path sample_today day_of_january
              1 true boundary_listing [item_of_today] item_of_yesterday
              [item_of_last_week] (d := Datetime 2026 1 8 0 0 0 0))
    as (_ & H & _);
    [vm_compute; reflexivity | vm_compute; reflexivity | vm_compute; reflexivity |].
  rewrite H. vm_compute. reflexivity.
Defined.

(* ===================================================================== *)
(** ** The crawl *)
(* ===================================================================== *)

Section CrawlFacts.

Variable urljoin : str -> str -> str.
Variable strptime : str -> str -> option datetime.
Variable now : nat -> datetime.
Variable today : datetime.
Variable web : str -> option response.

(** Every dictionary the crawl emits carries the title and the snippet
    of a pending article request or of one yielded by a listing page. *)
Lemma crawl_listed (fuel : nat) :
  forall (pending : list request) (ticks : nat) (item : Item.t),
    Forall request_listed pending ->
    In item (crawl urljoin strptime now today web fuel pending ticks) ->
    listed (Item.title item) (Item.snippet item) = true.
Proof.
  induction fuel as [|fuel IH]; intros pending ticks item Hpending; [intros []|].
  cbn [crawl]. destruct pending as [|[url page continue_loading
                                     |url title snippet item_date] pending];
    [intros []| |].
  - inversion Hpending as [|? ? _ Hrest]; subst.
    destruct (web url) as [resp|]; [|now apply IH].
    apply IH, Forall_app. split; [exact Hrest|].
    apply Forall_forall. intros r Hr.
    now apply parse_news_list_with_listed in Hr.
  - inversion Hpending as [|? ? Hreq Hrest]; subst.
    destruct (web url) as [resp|]; [|now apply IH].
    pose proof (parse_article_item strptime now today title snippet item_date
                  resp ticks) as H.
    cbv zeta in H. destruct H as (Htitle & _ & Hsnippet & _).
    destruct (parse_article strptime now today title snippet item_date resp ticks)
      as [emitted ticks'].
    cbn [fst] in Htitle, Hsnippet. intros [<- | Hin].
    + rewrite Htitle, Hsnippet. exact Hreq.
    + now apply (IH pending ticks').
Qed.

End CrawlFacts.

(** C10. Every article request a listing page yields carries a title
    and a snippet whose lowercased concatenation passes
    [is_presidential_appointment], and every dictionary a run of the
    spider emits carries such a title and snippet, whatever the two
    passes of [parse_article] decide. *)
Theorem emitted_items_passed_the_listing_test :
  (forall urljoin today page continue_loading response url title snippet item_date,
      In (ArticleRequest url title snippet item_date)
         (parse_news_list urljoin today page continue_loading response) ->
      is_presidential_appointment (lower (title ++ u " " ++ snippet)) = true)
  /\ (forall urljoin strptime now web fuel item,
         In item (run_spider urljoin strptime now web fuel) ->
         is_presidential_appointment
           (lower (Item.title item ++ u " " ++ Item.snippet item)) = true).
Proof.
  split.
  - intros urljoin today page continue_loading response url title snippet item_date Hin.
    now apply parse_news_list_with_listed in Hin.
  - intros urljoin strptime now web fuel item Hin.
    unfold run_spider in Hin.
    eapply crawl_listed; [|exact Hin]. repeat constructor.
Qed.

(** A run on the sample site emits one dictionary. It is not relevant,
    and its title and snippet pass the classifier. *)
Lemma emitted_items_passed_the_listing_test_witness :
  exists item,
    run_spider join_path no_strptime noon sample_web 4 = [item]
    /\ Item.relevant item = false
    /\ is_presidential_appointment
         (lower (Item.title item ++ u " " ++ Item.snippet item)) = true.
Proof.
  eexists. split; [vm_compute; reflexivity|]. split; [vm_compute; reflexivity|].
  apply (proj2 emitted_items_passed_the_listing_test
           join_path no_strptime noon sample_web 4%nat).
  vm_compute. left. reflexivity.
Defined.

(* ===================================================================== *)
(** ** Facts about the matcher *)
(* ===================================================================== *)

Lemma in_and_then (ts : list thread) (k : str -> list thread) (c : thread) :
  In c (and_then ts k)
  <-> exists a b,
        In a ts /\ In b (k (rest a))
        /\ c = Thread (consumed a ++ consumed b) (rest b) (caps a ++ caps b).
Proof.
  unfold and_then. rewrite in_flat_map. split.
  - intros [a [Ha Hc]]. apply in_map_iff in Hc. destruct Hc as [b [<- Hb]].
    now exists a, b.
  - intros [a [b [Ha [Hb ->]]]]. exists a. split; [exact Ha|].
    apply in_map_iff. now exists b.
Qed.

Lemma within_zero (hi : option nat) : within 0 hi 0.
Proof. split; [lia | destruct hi; [lia | exact I]]. Qed.

Lemma within_owed (lo : nat) (hi : option nat) (n : nat) :
  within lo (dec_hi hi) n -> within (S lo) hi (S n).
Proof.
  intros [Hlo Hhi]. split; [lia|]. destruct hi as [h|]; [|exact I].
  cbn in Hhi. lia.
Qed.

Lemma within_more (hi : option nat) (n : nat) :
  hi_is_zero hi = false -> within 0 (dec_hi hi) n -> within 0 hi (S n).
Proof.
  intros Hz [_ Hhi]. split; [lia|]. destruct hi as [[|h]|]; [discriminate| |exact I].
  cbn in Hhi. lia.
Qed.

(** What a thread of [rep] has consumed is a sequence of iterations,
    within the bounds. *)
Lemma rep_sound (step : str -> list thread) (P : str -> Prop) :
  (forall s a, In a (step s) -> s = consumed a ++ rest a /\ P (consumed a)) ->
  forall fuel lo hi greedy s a,
    In a (rep step fuel lo hi greedy s) ->
    s = consumed a ++ rest a
    /\ exists parts,
         consumed a = concat parts /\ Forall P parts
         /\ within lo hi (length parts).
Proof.
  intros Hstep. induction fuel as [|fuel IH]; intros lo hi greedy s a; [intros []|].
  cbn [rep].
  assert (Hiter : forall lo' ts,
             (forall b, In b ts -> In b (step s)) ->
             In a (and_then ts (rep step fuel lo' (dec_hi hi) greedy)) ->
             s = consumed a ++ rest a
             /\ exists part parts,
                  consumed a = concat (part :: parts) /\ Forall P (part :: parts)
                  /\ within lo' (dec_hi hi) (length parts)).
  { intros lo' ts Hts Hin. apply in_and_then in Hin.
    destruct Hin as [b [c [Hb [Hc ->]]]]. cbn [consumed rest].
    destruct (Hstep s b (Hts b Hb)) as [Hs Hp].
    destruct (IH _ _ _ _ _ Hc) as [Hr [parts [Hparts [Hall Hw]]]].
    split; [rewrite <- app_assoc, <- Hr; exact Hs|].
    exists (consumed b), parts. cbn [concat]. rewrite Hparts.
    split; [reflexivity | split; [now constructor | exact Hw]]. }
  assert (Hstay : In a [stay s] ->
                  s = consumed a ++ rest a
                  /\ exists parts,
                       consumed a = concat parts /\ Forall P parts
                       /\ within 0 hi (length parts)).
  { intros [<- | []]. split; [reflexivity|]. exists []. cbn.
    split; [reflexivity | split; [constructor | apply within_zero]]. }
  assert (Hfilter : forall b, In b (filter advances (step s)) -> In b (step s)).
  { intros b Hb. now apply filter_In in Hb. }
  destruct lo as [|lo'].
  - destruct (hi_is_zero hi) eqn:Hz; [exact Hstay|].
    assert (Hmore : In a (and_then (filter advances (step s))
                           (rep step fuel 0 (dec_hi hi) greedy)) ->
                    s = consumed a ++ rest a
                    /\ exists parts,
                         consumed a = concat parts /\ Forall P parts
                         /\ within 0 hi (length parts)).
    { intros Hin. destruct (Hiter _ _ Hfilter Hin) as [Hs [part [parts [Hc [Hall Hw]]]]].
      split; [exact Hs|]. exists (part :: parts).
      split; [exact Hc | split; [exact Hall | now apply within_more]]. }
    destruct greedy; intros Hin.
    + apply in_app_or in Hin. destruct Hin as [Hin | Hin]; auto.
    + destruct Hin as [Hin | Hin]; [apply Hstay; now left | auto].
  - intros Hin.
    destruct (Hiter lo' (step s) (fun b Hb => Hb) Hin)
      as [Hs [part [parts [Hc [Hall Hw]]]]].
    split; [exact Hs|]. exists (part :: parts).
    split; [exact Hc | split; [exact Hall | now apply within_owed]].
Qed.

(** Soundness of the matcher: a thread of [run r s] has consumed a
    prefix of [s] that [r] matches. *)
Lemma run_sound (r : regex) :
  forall s a, In a (run r s) -> s = consumed a ++ rest a /\ matches r (consumed a).
Proof.
  induction r as [|p|r1 IH1 r2 IH2|r1 IH1 r2 IH2|r1 IH1 lo hi greedy|n r1 IH1];
    intros s a; cbn [run matches].
  - intros [<- | []]. now split.
  - destruct s as [|c s]; [intros []|].
    destruct (p c) eqn:Hp; [|intros []].
    intros [<- | []]. split; [reflexivity|]. now exists c.
  - intros Hin. apply in_and_then in Hin. destruct Hin as [b [c [Hb [Hc ->]]]].
    destruct (IH1 _ _ Hb) as [Hs1 Hm1]. destruct (IH2 _ _ Hc) as [Hs2 Hm2].
    cbn [consumed rest]. split; [rewrite <- app_assoc, <- Hs2; exact Hs1|].
    now exists (consumed b), (consumed c).
  - intros Hin. apply in_app_or in Hin. destruct Hin as [Hin | Hin].
    + destruct (IH1 _ _ Hin). auto.
    + destruct (IH2 _ _ Hin). auto.
  - intros Hin. now apply (rep_sound (run r1) (matches r1) IH1) in Hin.
  - intros Hin. apply in_map_iff in Hin. destruct Hin as [b [<- Hb]].
    cbn [consumed rest]. now apply IH1.
Qed.

Lemma hd_error_in {A : Type} (l : list A) (a : A) : hd_error l = Some a -> In a l.
Proof. destruct l; [discriminate|]. intros [= ->]. now left. Qed.

(** Every match of [scan] is a thread of the matcher run on a suffix of
    the text. *)
Lemma scan_sound (r : regex) :
  forall s skip gap mo,
    In mo (fst (scan r s skip gap)) ->
    exists pre s', s = pre ++ s' /\ In (found mo) (run r s').
Proof.
  induction s as [|c s IH]; intros skip gap mo.
  - destruct skip; [|intros []]. cbn [scan].
    destruct (hd_error (run r [])) as [a|] eqn:Ha; [|intros []].
    assert (Hhere : forall pre b, In b (run r []) ->
                      mo = Match pre b ->
                      exists pre' s', [] = pre' ++ s' /\ In (found mo) (run r s')).
    { intros pre b Hb ->. now exists [], []. }
    apply hd_error_in in Ha.
    destruct (advances a).
    + intros [<- | []]. eapply Hhere; eauto.
    + intros [<- | Hin]; [eapply Hhere; eauto|].
      destruct (hd_error (filter advances (run r []))) as [b|] eqn:Hb;
        [|destruct Hin].
      apply hd_error_in, filter_In in Hb. destruct Hb as [Hb _].
      destruct Hin as [<- | []]. eapply Hhere; eauto.
  - assert (Hlater : forall skip' gap',
               In mo (fst (scan r s skip' gap')) ->
               exists pre s', c :: s = pre ++ s' /\ In (found mo) (run r s')).
    { intros skip' gap' Hin. destruct (IH _ _ _ Hin) as [pre [s' [-> Hrun]]].
      now exists (c :: pre), s'. }
    assert (Hhere : forall pre b, In b (run r (c :: s)) ->
                      mo = Match pre b ->
                      exists pre' s', c :: s = pre' ++ s' /\ In (found mo) (run r s')).
    { intros pre b Hb ->. now exists [], (c :: s). }
    assert (Hresume : forall n gap',
               In mo (fst (match n with
                           | O => scan r s 0 (c :: gap')
                           | S k => scan r s k gap'
                           end)) ->
               exists pre s', c :: s = pre ++ s' /\ In (found mo) (run r s')).
    { intros [|k] gap'; apply Hlater. }
    destruct skip as [|k]; [|apply Hlater]. cbn [scan].
    destruct (hd_error (run r (c :: s))) as [a|] eqn:Ha; [|apply Hlater].
    apply hd_error_in in Ha.
    destruct (advances a); cbn [cons_fst fst In].
    + intros [<- | Hin]; [eapply Hhere; eauto | now apply Hresume in Hin].
    + intros [<- | Hin]; [eapply Hhere; eauto|].
      destruct (hd_error (filter advances (run r (c :: s)))) as [b|] eqn:Hb;
        [|now apply Hlater in Hin].
      apply hd_error_in, filter_In in Hb. destruct Hb as [Hb _].
      destruct Hin as [<- | Hin]; [eapply Hhere; eauto | now apply Hresume in Hin].
Qed.

Lemma last_cap_last (n : nat) (x : str) (cs : list (nat * str)) :
  forall acc, last_cap n (cs ++ [(n, x)]) acc = Some x.
Proof.
  induction cs as [|[k y] cs IH]; intros acc; cbn.
  - now rewrite Nat.eqb_refl.
  - apply IH.
Qed.

(** [re.findall] with the whole pattern in group 1 returns texts the
    pattern matches, each a part of the text searched. *)
Lemma findall_group_sound (r : regex) (s m : str) :
  In m (findall (Grp 1 r) s) -> matches r m /\ occurs m s.
Proof.
  unfold findall, finditer. intros Hin. apply in_map_iff in Hin.
  destruct Hin as [mo [<- Hmo]]. apply scan_sound in Hmo.
  destruct Hmo as [pre [s' [-> Hrun]]]. cbn [run] in Hrun.
  apply in_map_iff in Hrun. destruct Hrun as [b [Hb Hrun]].
  cbn [group]. rewrite <- Hb. cbn [caps]. rewrite last_cap_last.
  apply run_sound in Hrun. destruct Hrun as [-> Hm].
  split; [exact Hm|]. now exists pre, (rest b).
Qed.

(* ===================================================================== *)
(** ** The name of the person *)
(* ===================================================================== *)

Lemma cyr_not_space (c : char) :
  upper_cyr c = true \/ lower_cyr c = true -> is_space c = false.
Proof.
  intros H. apply not_true_iff_false. intros Hs. revert H Hs.
  unfold upper_cyr, lower_cyr, is_space, between.
  rewrite !orb_true_iff, !andb_true_iff, !N.leb_le, !N.eqb_eq.
  unfold char in c. lia.
Qed.

Lemma matches_chars (p : char -> bool) (parts : list str) :
  Forall (matches (Chr p)) parts ->
  Forall (fun x => p x = true) (concat parts)
  /\ length (concat parts) = length parts.
Proof.
  induction 1 as [|part parts [c [-> Hc]] _ [IHall IHlen]]; cbn.
  - now split.
  - split; [now constructor | now rewrite IHlen].
Qed.

Lemma matches_cap_word (w : str) : matches cap_word w -> capitalized w.
Proof.
  intros [s1 [s2 [-> [[c [-> Hc]] [parts [-> [Hparts [Hlo _]]]]]]]].
  apply matches_chars in Hparts. destruct Hparts as [Hall Hlen].
  exists c, (concat parts). repeat split; trivial.
  intros Hnil. rewrite Hnil in Hlen. cbn in Hlen. unfold str in *. lia.
Qed.

Lemma matches_blank (g : str) : matches (plus ws) g -> blank g.
Proof.
  intros [parts [-> [Hparts [Hlo _]]]].
  apply matches_chars in Hparts. destruct Hparts as [Hall Hlen].
  split; [|exact Hall].
  intros Hnil. rewrite Hnil in Hlen. cbn in Hlen. unfold str in *. lia.
Qed.

Lemma capitalized_no_space (w : str) :
  capitalized w -> w <> [] /\ Forall (fun x => is_space x = false) w.
Proof.
  intros [c [cs [-> [Hc [_ Hcs]]]]]. split; [discriminate|].
  constructor; [apply cyr_not_space; now left|].
  eapply Forall_impl; [|exact Hcs]. intros x Hx. apply cyr_not_space. now right.
Qed.

Lemma split_ws_word (w s cur : str) :
  Forall (fun x => is_space x = false) w ->
  split_ws_from (w ++ s) cur = split_ws_from s (rev w ++ cur).
Proof.
  intros H. revert cur. induction H as [|x w Hx _ IH]; intros cur; cbn.
  - reflexivity.
  - rewrite Hx, IH, <- app_assoc. reflexivity.
Qed.

Lemma split_ws_blank_start (g s : str) :
  Forall (fun x => is_space x = true) g ->
  split_ws_from (g ++ s) [] = split_ws_from s [].
Proof.
  induction 1 as [|x g Hx _ IH]; cbn; [reflexivity|]. now rewrite Hx.
Qed.

Lemma split_ws_blank (g s cur : str) :
  blank g -> cur <> [] ->
  split_ws_from (g ++ s) cur = rev cur :: split_ws_from s [].
Proof.
  intros [Hne Hall] Hcur. destruct Hall as [|x g Hx Hg]; [congruence|].
  cbn. rewrite Hx. destruct cur; [congruence|].
  now rewrite split_ws_blank_start.
Qed.

(** A word, then a blank: the word is the first field. *)
Lemma split_ws_word_blank (w g s : str) :
  capitalized w -> blank g ->
  split_ws_from (w ++ g ++ s) [] = w :: split_ws_from s [].
Proof.
  intros Hw Hg. apply capitalized_no_space in Hw. destruct Hw as [Hne Hw].
  rewrite split_ws_word by exact Hw. rewrite app_nil_r.
  rewrite split_ws_blank; [now rewrite rev_involutive | exact Hg |].
  intros Hrev. apply Hne. now rewrite <- (rev_involutive w), Hrev.
Qed.

Lemma split_ws_last_word (w : str) :
  capitalized w -> split_ws_from w [] = [w].
Proof.
  intros Hw. apply capitalized_no_space in Hw. destruct Hw as [Hne Hw].
  rewrite <- (app_nil_r w) at 1. rewrite split_ws_word by exact Hw.
  rewrite app_nil_r. cbn. destruct (rev w) eqn:E.
  - exfalso. apply Hne. now rewrite <- (rev_involutive w), E.
  - now rewrite <- E, rev_involutive.
Qed.

(** What [FIO_PATTERN] matches is a candidate name, and [split] gives
    its tokens. *)
Lemma fio_match_is_candidate (m : str) :
  matches (Cat cap_word (times 1 2 (Cat (plus ws) cap_word))) m -> fio_candidate m.
Proof.
  intros [w1 [tail [-> [Hw1 [parts [-> [Hparts [Hlo Hhi]]]]]]]].
  apply matches_cap_word in Hw1. cbn in Hhi.
  destruct parts as [|p1 parts]; [cbn in Hlo; lia|].
  inversion Hparts as [|? ? [g1 [w2 [-> [Hg1 Hw2]]]] Hrest]; subst.
  apply matches_blank in Hg1. apply matches_cap_word in Hw2.
  exists w1, g1, w2. repeat (split; [assumption|]).
  destruct parts as [|p2 parts].
  - left. cbn. rewrite app_nil_r. split; [reflexivity|].
    unfold split. rewrite split_ws_word_blank by assumption.
    now rewrite split_ws_last_word.
  - right. destruct parts; [|cbn in Hhi; lia].
    inversion Hrest as [|? ? [g2 [w3 [-> [Hg2 Hw3]]]] _]; subst.
    apply matches_blank in Hg2. apply matches_cap_word in Hw3.
    exists g2, w3. repeat (split; [assumption|]).
    cbn. rewrite app_nil_r, <- !app_assoc. split; [reflexivity|].
    unfold split. rewrite !split_ws_word_blank by assumption.
    now rewrite split_ws_last_word.
Qed.

Lemma rstrip_by_last (p : char -> bool) (s : str) (z : char) :
  p z = false -> rstrip_by p (s ++ [z]) = s ++ [z].
Proof.
  intros Hz. unfold rstrip_by. rewrite rev_app_distr. cbn. rewrite Hz.
  cbn. now rewrite rev_involutive.
Qed.

(** [strip] leaves a text alone that neither starts nor ends with
    whitespace. *)
Lemma strip_kept (c z : char) (body : str) :
  is_space c = false -> is_space z = false ->
  strip (c :: body ++ [z]) = c :: body ++ [z].
Proof.
  intros Hc Hz. unfold strip. cbn [lstrip_by]. rewrite Hc.
  now rewrite app_comm_cons, rstrip_by_last.
Qed.

Lemma capitalized_ends (w : str) :
  capitalized w ->
  exists c body z,
    w = c :: body ++ [z] /\ is_space c = false /\ is_space z = false.
Proof.
  intros [c [cs [-> [Hc [Hne Hcs]]]]].
  destruct (exists_last Hne) as [body [z ->]].
  exists c, body, z. split; [reflexivity|]. split.
  - apply cyr_not_space. now left.
  - apply Forall_app in Hcs. destruct Hcs as [_ Hz]. inversion Hz; subst.
    apply cyr_not_space. now right.
Qed.

Lemma fio_candidate_strip (m : str) : fio_candidate m -> strip m = m.
Proof.
  intros [w1 [g1 [w2 [Hw1 [_ [Hw2 Hm]]]]]].
  destruct (capitalized_ends Hw1) as [c [body1 [z1 [-> [Hc _]]]]].
  destruct Hm as [[-> _] | [g2 [w3 [_ [Hw3 [-> _]]]]]].
  - destruct (capitalized_ends Hw2) as [c2 [body2 [z [-> [_ Hz]]]]].
    replace ((c :: body1 ++ [z1]) ++ g1 ++ c2 :: body2 ++ [z])
      with (c :: (body1 ++ [z1] ++ g1 ++ c2 :: body2) ++ [z])
      by (repeat (rewrite <- ?app_assoc; cbn [app]); reflexivity).
    now apply strip_kept.
  - destruct (capitalized_ends Hw3) as [c3 [body3 [z [-> [_ Hz]]]]].
    replace ((c :: body1 ++ [z1]) ++ g1 ++ w2 ++ g2 ++ c3 :: body3 ++ [z])
      with (c :: (body1 ++ [z1] ++ g1 ++ w2 ++ g2 ++ c3 :: body3) ++ [z])
      by (repeat (rewrite <- ?app_assoc; cbn [app]); reflexivity).
    now apply strip_kept.
Qed.

Lemma fio_candidate_words (m : str) :
  fio_candidate m ->
  Nat.leb 2 (length (split m)) && Nat.leb (length (split m)) 3 = true.
Proof.
  intros [w1 [g1 [w2 [_ [_ [_ [[_ ->] | [g2 [w3 [_ [_ [_ ->]]]]]]]]]]]];
    reflexivity.
Qed.

(** On candidate names the loop of [extract_fio] is the search for the
    first one that survives the exclusion list. *)
Lemma first_fio_find (fio_matches : list str) :
  Forall fio_candidate fio_matches ->
  first_fio fio_matches = find survives fio_matches.
Proof.
  induction 1 as [|m later Hm _ IH]; [reflexivity|].
  cbn [first_fio find]. cbv zeta. rewrite (fio_candidate_words Hm).
  fold (survives m). destruct (survives m); [|exact IH].
  now rewrite (fio_candidate_strip Hm).
Qed.

Lemma fio_matches_candidates (full_text m : str) :
  In m (findall FIO_PATTERN full_text) ->
  fio_candidate m /\ occurs m full_text.
Proof.
  intros Hin. apply findall_group_sound in Hin. destruct Hin as [Hm Hocc].
  split; [now apply fio_match_is_candidate | exact Hocc].
Qed.

(** A candidate with an institutional word is rejected: alone it leaves
    the sentinel, and a name after it is returned. The candidates do not
    overlap, so a name that follows an institution without a break is
    taken into the candidate of the institution and lost. *)
Example fio_institution_is_rejected :
  findall FIO_PATTERN (u "Совет Министров Страны") = [u "Совет Министров Страны"]
  /\ extract_fio (u "Совет Министров Страны") (u "") = FIO_SENTINEL
  /\ extract_fio (u "Совет Министров Страны назначил: Иван Петров") (u "")
     = u "Иван Петров"
  /\ extract_fio (u "Совет Министров Республики Беларусь Иван Петров") (u "")
     = FIO_SENTINEL.
Proof. vm_compute. repeat split. Qed.

(* ===================================================================== *)
(** ** The position *)
(* ===================================================================== *)

Lemma position_by_pattern_first_some (patterns : list regex) (full_text : str) :
  position_by_pattern patterns full_text
  = first_some (map (position_candidate full_text) patterns).
Proof.
  induction patterns as [|pattern later IH]; [reflexivity|].
  cbn [position_by_pattern map first_some]. unfold position_candidate at 1.
  destruct (findall pattern full_text) as [|first others]; cbn [hd_error];
    [exact IH|].
  cbv zeta. now destruct (Nat.ltb 5 (length (clean_position first))).
Qed.

Lemma position_by_keyword_first_some (keywords : list str) (full_text : str) :
  position_by_keyword keywords full_text
  = first_some (map (keyword_fragment full_text) keywords).
Proof.
  induction keywords as [|keyword later IH]; [reflexivity|].
  cbn [position_by_keyword map first_some]. unfold keyword_fragment at 1.
  now destruct (findall (keyword_pattern keyword) full_text).
Qed.

(* ===================================================================== *)
(** ** The matcher never runs out of fuel *)
(* ===================================================================== *)

Lemma and_then_ext (ts : list thread) (k1 k2 : str -> list thread) :
  (forall a, In a ts -> k1 (rest a) = k2 (rest a)) ->
  and_then ts k1 = and_then ts k2.
Proof.
  intros H. unfold and_then. induction ts as [|a ts IH]; [reflexivity|].
  cbn [flat_map]. rewrite (H a (or_introl eq_refl)), IH; [reflexivity|].
  intros b Hb. apply H. now right.
Qed.

(** Past [lo + length s] the fuel of [rep] makes no difference: owed
    iterations use up [lo], the others shorten the text. *)
Lemma rep_fuel_irrelevant (step : str -> list thread) :
  (forall s a, In a (step s) -> s = consumed a ++ rest a) ->
  forall fuel1 fuel2 lo hi greedy s,
    (lo + length s < fuel1)%nat -> (lo + length s < fuel2)%nat ->
    rep step fuel1 lo hi greedy s = rep step fuel2 lo hi greedy s.
Proof.
  intros Hstep. induction fuel1 as [|fuel1 IH]; intros fuel2 lo hi greedy s H1 H2;
    [lia|].
  destruct fuel2 as [|fuel2]; [lia|]. cbn [rep].
  assert (Hlen : forall a, In a (step s) -> (length (rest a) <= length s)%nat).
  { intros a Ha. apply Hstep in Ha. apply (f_equal (@length char)) in Ha.
    rewrite length_app in Ha. lia. }
  assert (Hadv : forall a, In a (filter advances (step s)) ->
                           (length (rest a) < length s)%nat).
  { intros a Ha. apply filter_In in Ha. destruct Ha as [Ha Hadv].
    apply Hstep in Ha. apply (f_equal (@length char)) in Ha.
    rewrite length_app in Ha.
    unfold advances in Hadv. destruct (consumed a); [discriminate|].
    cbn [length] in Ha. lia. }
  destruct lo as [|lo].
  - destruct (hi_is_zero hi); [reflexivity|].
    rewrite (and_then_ext (filter advances (step s))
               (rep step fuel1 0 (dec_hi hi) greedy)
               (rep step fuel2 0 (dec_hi hi) greedy)); [reflexivity|].
    intros a Ha. apply Hadv in Ha. apply IH; lia.
  - apply and_then_ext. intros a Ha. apply Hlen in Ha. apply IH; lia.
Qed.

Lemma run_splits (r : regex) (s : str) (a : thread) :
  In a (run r s) -> s = consumed a ++ rest a.
Proof. intros H. now apply run_sound in H. Qed.

(** So the repetition of [run] is the repetition with any fuel above
    the bound: it stops only because the pattern does. *)
Lemma run_rep_any_fuel (r : regex) (lo : nat) (hi : option nat) (greedy : bool)
    (s : str) (fuel : nat) :
  (lo + length s < fuel)%nat ->
  run (Rep r lo hi greedy) s = rep (run r) fuel lo hi greedy s.
Proof.
  intros H. cbn [run]. apply rep_fuel_irrelevant.
  - intros s' a. apply run_splits.
  - unfold rep_fuel. lia.
  - exact H.
Qed.

(* ===================================================================== *)
(** ** The first match of the fallback pattern *)
(* ===================================================================== *)

Lemma and_then_one (a : thread) (k : str -> list thread) :
  and_then [a] k
  = map (fun b => Thread (consumed a ++ consumed b) (rest b) (caps a ++ caps b))
        (k (rest a)).
Proof. unfold and_then. cbn. apply app_nil_r. Qed.

Lemma and_then_app (ts1 ts2 : list thread) (k : str -> list thread) :
  and_then (ts1 ++ ts2) k = and_then ts1 k ++ and_then ts2 k.
Proof. unfold and_then. apply flat_map_app. Qed.

(** A greedy starred class tries the prefixes of the longest run of the
    class, the longest first. *)
Lemma run_star_class (p : char -> bool) (s : str) :
  run (star (Chr p)) s = greedy_prefixes p s.
Proof.
  induction s as [|c s IH]; [reflexivity|].
  change (run (star (Chr p)) (c :: s))
    with (and_then (filter advances (run (Chr p) (c :: s)))
                   (fun s' => rep (run (Chr p)) (S (length s)) 0 None true s')
          ++ [stay (c :: s)]).
  cbn [run greedy_prefixes]. destruct (p c); [|reflexivity].
  cbn [filter advances consumed truthy]. rewrite and_then_one. cbn [rest consumed caps app].
  rewrite <- IH. reflexivity.
Qed.

Lemma run_lit (ic : bool) (c : char) (k s : str) :
  run (lit ic (c :: k)) s
  = if lit_prefix ic (c :: k) s
    then [Thread (firstn (length (c :: k)) s) (skipn (length (c :: k)) s) []]
    else [].
Proof.
  revert c s. induction k as [|c2 k IH]; intros c s.
  - cbn. destruct s as [|x s]; [reflexivity|].
    rewrite andb_true_r. now destruct (same_char ic c x).
  - change (lit ic (c :: c2 :: k))
      with (Cat (Chr (same_char ic c)) (lit ic (c2 :: k))).
    cbn [run]. destruct s as [|x s]; [reflexivity|].
    change (lit_prefix ic (c :: c2 :: k) (x :: s))
      with (same_char ic c x && lit_prefix ic (c2 :: k) s).
    destruct (same_char ic c x); [|reflexivity].
    rewrite and_then_one. cbn [rest]. rewrite IH. cbn [andb].
    destruct (lit_prefix ic (c2 :: k) s); reflexivity.
Qed.

(** A literal without a full stop starts a text exactly when it starts
    the stretch of the text before the first full stop. *)
Lemma lit_prefix_take_while (k s : str) :
  forallb (fun c => negb (same_char true c (ch "."))) k = true ->
  lit_prefix true k s = lit_prefix true k (take_while not_dot s).
Proof.
  revert s. induction k as [|c k IH]; intros s Hk; [reflexivity|].
  cbn [forallb] in Hk. apply andb_true_iff in Hk. destruct Hk as [Hc Hk].
  apply negb_true_iff in Hc.
  destruct s as [|x s]; [reflexivity|]. cbn [lit_prefix take_while].
  unfold not_dot at 1. destruct (N.eqb_spec x (ch ".")) as [->|Hx]; cbn [negb].
  - now rewrite Hc.
  - cbn [lit_prefix]. now rewrite (IH s Hk).
Qed.

Lemma take_while_app (p : char -> bool) (a b : str) :
  forallb p a = true ->
  take_while p (a ++ b) = a ++ take_while p b
  /\ drop_while p (a ++ b) = drop_while p b.
Proof.
  induction a as [|x a IH]; [now split|]. cbn. intros H.
  apply andb_true_iff in H. destruct H as [-> H].
  destruct (IH H) as [-> ->]. now split.
Qed.

(** What a literal without a full stop has matched has none either. *)
Lemma lit_prefix_plain (k s : str) :
  forallb (fun c => negb (same_char true c (ch "."))) k = true ->
  lit_prefix true k s = true ->
  forallb not_dot (firstn (length k) s) = true.
Proof.
  revert s. induction k as [|c k IH]; intros s Hk; [reflexivity|].
  cbn [forallb] in Hk. apply andb_true_iff in Hk. destruct Hk as [Hc Hk].
  apply negb_true_iff in Hc.
  destruct s as [|x s]; [discriminate|].
  cbn [lit_prefix firstn length forallb]. intros H.
  apply andb_true_iff in H. destruct H as [Hx Hrest].
  rewrite (IH s Hk Hrest), andb_true_r. unfold not_dot.
  destruct (N.eqb_spec x (ch ".")) as [->|_]; [|reflexivity].
  rewrite Hx in Hc. discriminate.
Qed.

Lemma greedy_prefixes_head (p : char -> bool) (s : str) :
  hd_error (greedy_prefixes p s)
  = Some (Thread (take_while p s) (drop_while p s) []).
Proof.
  induction s as [|c s IH]; [reflexivity|]. cbn.
  destruct (p c); [|reflexivity].
  destruct (greedy_prefixes p s) as [|a ts]; [discriminate|].
  cbn in IH |- *. now injection IH as ->.
Qed.

Lemma thread_eta (ts : list thread) :
  map (fun b => Thread (consumed b) (rest b) (caps b)) ts = ts.
Proof.
  induction ts as [|[c r cs] ts IH]; [reflexivity|]. cbn. now rewrite IH.
Qed.

Lemma and_then_stay (s : str) (k : str -> list thread) :
  and_then [stay s] k = k s.
Proof. rewrite and_then_one. cbn. apply thread_eta. Qed.

Lemma and_then_shift (c : char) (ts : list thread) (k : str -> list thread) :
  and_then (map (fun a => Thread (c :: consumed a) (rest a) (caps a)) ts) k
  = map (fun a => Thread (c :: consumed a) (rest a) (caps a)) (and_then ts k).
Proof.
  unfold and_then. induction ts as [|a ts IH]; [reflexivity|].
  cbn [map flat_map]. rewrite map_app, IH, map_map. reflexivity.
Qed.

Lemma hd_error_app {A : Type} (l1 l2 : list A) :
  hd_error (l1 ++ l2)
  = match hd_error l1 with
    | Some a => Some a
    | None => hd_error l2
    end.
Proof. now destruct l1. Qed.

Lemma hd_error_map {A B : Type} (f : A -> B) (l : list A) :
  hd_error (map f l) = option_map f (hd_error l).
Proof. now destruct l. Qed.

(** The keyword and what follows it up to the next full stop. *)
Lemma run_keyword_tail (c : char) (k s : str) :
  plain_keyword (c :: k) = true ->
  hd_error (run (Cat (lit true (c :: k)) (star (Chr not_dot))) s)
  = if lit_prefix true (c :: k) s
    then Some (Thread (take_while not_dot s) (drop_while not_dot s) [])
    else None.
Proof.
  intros Hplain. cbn [run]. rewrite run_lit.
  destruct (lit_prefix true (c :: k) s) eqn:Hpre; [|reflexivity].
  rewrite and_then_one. cbn [consumed rest caps app].
  change (rep (run (Chr not_dot)) _ 0 None true ?x)
    with (run (star (Chr not_dot)) x).
  rewrite hd_error_map.
  change (hd_error (rep (run (Chr not_dot))
                      (rep_fuel 0 (skipn (length (c :: k)) s)) 0 None true
                      (skipn (length (c :: k)) s)))
    with (hd_error (run (star (Chr not_dot)) (skipn (length (c :: k)) s))).
  rewrite run_star_class, greedy_prefixes_head. cbn [option_map consumed rest caps].
  unfold plain_keyword in Hplain. apply andb_true_iff in Hplain.
  destruct Hplain as [_ Hplain].
  pose proof (lit_prefix_plain (c :: k) s Hplain Hpre) as Hdots.
  destruct (take_while_app not_dot (firstn (length (c :: k)) s)
              (skipn (length (c :: k)) s) Hdots) as [Htake Hdrop].
  rewrite firstn_skipn in Htake, Hdrop. now rewrite Htake, Hdrop.
Qed.

Lemma mentions_cons (k : str) (x : char) (t : str) :
  mentions k (x :: t) = lit_prefix true k (x :: t) || mentions k t.
Proof. reflexivity. Qed.

Lemma mentions_nil (c : char) (k : str) : mentions (c :: k) [] = false.
Proof. reflexivity. Qed.

(** At one position the fallback pattern matches exactly when the
    stretch up to the next full stop mentions the keyword, and the
    match the matcher reports is that whole stretch. *)
Lemma run_fragment_body_head (k s : str) :
  plain_keyword k = true ->
  hd_error (run (fragment_body k) s)
  = if mentions k (take_while not_dot s)
    then Some (Thread (take_while not_dot s) (drop_while not_dot s) [])
    else None.
Proof.
  intros Hplain. destruct k as [|c k]; [discriminate|].
  assert (Hforall : forallb (fun c => negb (same_char true c (ch "."))) (c :: k)
                    = true).
  { unfold plain_keyword in Hplain. now apply andb_true_iff in Hplain. }
  assert (Htail : forall s',
             hd_error (run (Cat (lit true (c :: k)) (star (Chr not_dot))) s')
             = if lit_prefix true (c :: k) (take_while not_dot s')
               then Some (Thread (take_while not_dot s') (drop_while not_dot s') [])
               else None).
  { intros s'. rewrite run_keyword_tail by exact Hplain.
    now rewrite (lit_prefix_take_while (c :: k) s') by exact Hforall. }
  change (run (fragment_body (c :: k)) s)
    with (and_then (run (star (Chr not_dot)) s)
                   (run (Cat (lit true (c :: k)) (star (Chr not_dot))))).
  rewrite run_star_class.
  induction s as [|x s IH].
  - cbn [greedy_prefixes]. rewrite and_then_stay, Htail. reflexivity.
  - cbn [greedy_prefixes take_while drop_while]. destruct (not_dot x) eqn:Hx.
    + rewrite and_then_app, and_then_shift, and_then_stay, hd_error_app,
        hd_error_map, IH, mentions_cons.
      destruct (mentions (c :: k) (take_while not_dot s)).
      * now rewrite orb_true_r.
      * cbn [option_map]. rewrite orb_false_r, Htail.
        cbn [take_while drop_while]. now rewrite Hx.
    + rewrite and_then_stay, Htail. cbn [take_while]. now rewrite Hx.
Qed.

(** The first match of [re.finditer] is the match of [re.search]. *)
Lemma scan_head (r : regex) (s gap : str) :
  hd_error (fst (scan r s 0 gap)) = search_from r gap s.
Proof.
  revert gap. induction s as [|c s IH]; intros gap; cbn [scan search_from].
  - destruct (hd_error (run r [])) as [a|]; [|reflexivity].
    now destruct (advances a).
  - destruct (hd_error (run r (c :: s))) as [a|]; [|apply IH].
    now destruct (advances a).
Qed.

Lemma finditer_head (r : regex) (s : str) :
  hd_error (finditer r s) = search r s.
Proof. apply scan_head. Qed.

(** The fragments of a text: the stretch up to the first full stop, then
    the fragments of what follows that full stop. *)
Lemma split_from_dot (s cur : str) :
  split_from [ch "."] s 0 cur
  = (rev cur ++ take_while not_dot s)
    :: match drop_while not_dot s with
       | [] => []
       | _ :: s' => split_from [ch "."] s' 0 []
       end.
Proof.
  revert cur. induction s as [|x s IH]; intros cur.
  - cbn. now rewrite app_nil_r.
  - cbn [split_from take_while drop_while startswith]. unfold not_dot at 1 3.
    rewrite N.eqb_sym. destruct (N.eqb x (ch ".")); cbn [andb negb].
    + cbn. now rewrite app_nil_r.
    + rewrite IH. cbn [rev]. now rewrite <- app_assoc.
Qed.

Lemma fragments_unfold (s : str) :
  fragments s
  = take_while not_dot s
    :: match drop_while not_dot s with
       | [] => []
       | _ :: s' => fragments s'
       end.
Proof. unfold fragments, split_sep. apply (split_from_dot s []). Qed.

Lemma search_keyword_fragment (k s gap : str) :
  plain_keyword k = true ->
  option_map (fun mo => consumed (found mo))
             (search_from (Grp 1 (fragment_body k)) gap s)
  = find (mentions k) (fragments s)
  /\ forall mo,
       search_from (Grp 1 (fragment_body k)) gap s = Some mo ->
       group 1 mo = Some (consumed (found mo)).
Proof.
  intros Hplain. revert gap.
  induction s as [|x s IH]; intros gap; cbn [search_from run];
    rewrite hd_error_map, run_fragment_body_head by exact Hplain;
    rewrite fragments_unfold;
    cbn [find];
    destruct (mentions k (take_while not_dot _)) eqn:Hm;
    cbn [option_map found consumed];
    try (split; [reflexivity | intros mo [= <-]; reflexivity]);
    try (split; [reflexivity | discriminate]).
  destruct (IH (x :: gap)) as [IH1 IH2]. split; [|exact IH2].
  rewrite IH1. cbn [take_while drop_while] in Hm |- *.
  destruct (not_dot x); [|reflexivity].
  rewrite mentions_cons in Hm. apply orb_false_elim in Hm. destruct Hm as [_ Hm].
  rewrite (fragments_unfold s). cbn [find]. now rewrite Hm.
Qed.

(** The first match of the fallback pattern of a keyword is the first
    fragment of the text, between full stops, that mentions the
    keyword. *)
Lemma keyword_first_fragment (k s : str) :
  plain_keyword k = true ->
  hd_error (findall (keyword_pattern k) s) = find (mentions k) (fragments s).
Proof.
  intros Hplain. unfold findall. rewrite hd_error_map, finditer_head.
  unfold search. change (keyword_pattern k) with (Grp 1 (fragment_body k)).
  destruct (@search_keyword_fragment k s [] Hplain) as [H1 H2].
  rewrite <- H1.
  destruct (search_from (Grp 1 (fragment_body k)) [] s) as [mo|]; [|reflexivity].
  cbn [option_map]. now rewrite (H2 mo eq_refl).
Qed.

Lemma position_keywords_plain :
  forallb plain_keyword position_keywords = true.
Proof. vm_compute. reflexivity. Qed.

(** The fragment of a keyword of [position_keywords] is the first
    fragment of the text that mentions it, stripped. *)
Lemma keyword_fragment_first (full_text keyword : str) :
  In keyword position_keywords ->
  keyword_fragment full_text keyword
  = option_map strip (find (mentions keyword) (fragments full_text)).
Proof.
  intros Hin. unfold keyword_fragment. rewrite keyword_first_fragment; [reflexivity|].
  pose proof position_keywords_plain as H. rewrite forallb_forall in H.
  now apply H.
Qed.

(** C7, as the code has it. [extract_position] goes through
    [POSITION_PATTERNS] in order; each pattern offers its first match
    only, cleaned (stripped, runs of whitespace made one space, trailing
    punctuation removed), and the first offer longer than five
    characters is returned. Failing that it goes through
    [position_keywords] in order and returns, for the first keyword that
    some fragment of the text between full stops mentions, letters
    compared as [re.IGNORECASE] compares them, the first such fragment,
    stripped. Failing that it returns the sentinel. *)
Theorem extract_position_by_priority :
  forall full_text title,
    extract_position full_text title
    = match first_some (map (position_candidate full_text) POSITION_PATTERNS) with
      | Some position => position
      | None =>
          match first_some
                  (map (fun keyword =>
                          option_map strip
                            (find (mentions keyword) (fragments full_text)))
                       position_keywords) with
          | Some fragment => fragment
          | None => POSITION_SENTINEL
          end
      end
    /\ (forall pattern position,
           position_candidate full_text pattern = Some position ->
           (5 < length position)%nat
           /\ exists first others,
                findall pattern full_text = first :: others
                /\ position
                   = rstrip_chars (u ".,;:") (sub (plus ws) (u " ") (strip first)))
    /\ POSITION_SENTINEL = u "Должность не указана".
Proof.
  intros full_text title. split; [|split; [|reflexivity]].
  - unfold extract_position.
    rewrite position_by_pattern_first_some, position_by_keyword_first_some.
    rewrite (map_ext_in (keyword_fragment full_text)
               (fun keyword =>
                  option_map strip (find (mentions keyword) (fragments full_text))));
      [reflexivity|].
    intros keyword Hin. now apply keyword_fragment_first.
  - intros pattern position. unfold position_candidate.
    destruct (findall pattern full_text) as [|first others]; [discriminate|].
    cbn [hd_error].
    destruct (Nat.ltb 5 (length (clean_position first))) eqn:Hlen; [|discriminate].
    intros [= <-]. apply Nat.ltb_lt in Hlen. split; [exact Hlen|].
    now exists first, others.
Qed.

(** C7 as stated fails twice. In [two_nouns] the first fragment with a
    title noun is the first sentence, and the second sentence is
    returned, because its noun comes first in [position_keywords]. In
    [short_then_long] the second pattern matches twice; the first match
    is too short, the second one is long enough, and it is not returned,
    because only the first match of a pattern is looked at. *)
Lemma position_is_not_first_in_text :
  (find has_keyword (fragments two_nouns) = Some (u "Он министр")
   /\ extract_position two_nouns (u "") = u "Она председатель")
  /\ (findall (after_phrase (u "назначен")) short_then_long
      = [u "он"; u "министром финансов"]
      /\ clean_position (u "министром финансов") = u "министром финансов"
      /\ extract_position short_then_long (u "") = u "Назначен министром финансов"
      /\ extract_position short_then_long (u "") <> u "министром финансов").
Proof.
  vm_compute. repeat split. discriminate.
Qed.

(** A keyword is found in any case of its letters, the extra cases of
    [re.IGNORECASE] included: U+1C81 stands for the fourth letter of the
    first keyword, and U+1C84 for a letter of the fourth one behind a
    dash. *)
Example position_extra_cases :
  mentions (u "председатель") (u "Он преᲁседатель комитета") = true
  /\ extract_position (u "Он преᲁседатель комитета") (u "")
     = u "Он преᲁседатель комитета"
  /\ extract_position (u "Иван Петров — новый  ДИРЕКᲄОР завода. Вот") (u "")
     = u "новый ДИРЕКᲄОР завода".
Proof. vm_compute. repeat split. Qed.

(* ===================================================================== *)
(** ** The candidates of the name, one by one *)
(* ===================================================================== *)

Lemma and_then_thread (g r : str) (k : str -> list thread) :
  and_then [Thread g r []] k = map (prepend g) (k r).
Proof. apply and_then_one. Qed.

Lemma and_then_pre (g : str) (ts : list thread) (k : str -> list thread) :
  and_then (map (prepend g) ts) k = map (prepend g) (and_then ts k).
Proof.
  unfold and_then. induction ts as [|a ts IH]; [reflexivity|].
  cbn [map flat_map]. rewrite map_app, IH, map_map. f_equal.
  apply map_ext. intros b. unfold prepend. cbn [consumed rest caps].
  now rewrite app_assoc.
Qed.

Lemma shift_pre (c : char) (ts : list thread) :
  map (fun a => Thread (c :: consumed a) (rest a) (caps a)) ts = map (prepend [c]) ts.
Proof. reflexivity. Qed.

Lemma pre_pre (g h : str) (ts : list thread) :
  map (prepend g) (map (prepend h) ts) = map (prepend (g ++ h)) ts.
Proof.
  rewrite map_map. apply map_ext. intros a. unfold prepend. cbn [consumed rest caps].
  now rewrite app_assoc.
Qed.

Lemma and_then_stays (ts : list thread) :
  and_then ts (fun s => [stay s]) = ts.
Proof.
  unfold and_then. induction ts as [|[c r cs] ts IH]; [reflexivity|].
  cbn [flat_map]. rewrite IH. cbn. now rewrite !app_nil_r.
Qed.

(** A continuation that cannot start with a character of the class
    leaves of a greedy run of the class its longest prefix only. *)
Lemma class_then (p : char -> bool) (k : str -> list thread) (s : str) :
  (forall c s', p c = true -> k (c :: s') = []) ->
  and_then (greedy_prefixes p s) k
  = map (prepend (take_while p s)) (k (drop_while p s)).
Proof.
  intros Hk. induction s as [|c s IH].
  - cbn [greedy_prefixes take_while drop_while]. apply and_then_thread.
  - cbn [greedy_prefixes take_while drop_while]. destruct (p c) eqn:Hc.
    + rewrite and_then_app, shift_pre, and_then_pre, IH, pre_pre.
      unfold stay. rewrite and_then_thread, (Hk c s Hc). cbn [map].
      now rewrite app_nil_r.
    + apply and_then_thread.
Qed.

Lemma run_plus_class (p : char -> bool) (s : str) :
  run (plus (Chr p)) s
  = match s with
    | c :: s' => if p c then map (prepend [c]) (greedy_prefixes p s') else []
    | [] => []
    end.
Proof.
  unfold plus.
  rewrite (@run_rep_any_fuel (Chr p) 1 None true s (S (S (length s)))) by lia.
  change (rep (run (Chr p)) (S (S (length s))) 1 None true s)
    with (and_then (run (Chr p) s) (rep (run (Chr p)) (S (length s)) 0 None true)).
  destruct s as [|c s]; [reflexivity|].
  cbn [run]. destruct (p c); [|reflexivity].
  rewrite and_then_thread. f_equal.
  rewrite <- run_star_class. unfold star.
  symmetry. apply run_rep_any_fuel. cbn [length]. lia.
Qed.

Lemma run_cap_word (s : str) :
  run cap_word s
  = match s with
    | c :: c2 :: s' =>
        if upper_cyr c && lower_cyr c2
        then map (prepend [c; c2]) (greedy_prefixes lower_cyr s')
        else []
    | _ => []
    end.
Proof.
  unfold cap_word. cbn [run]. destruct s as [|c s]; [reflexivity|].
  destruct (upper_cyr c); cbn [andb].
  - rewrite and_then_thread, run_plus_class. destruct s as [|c2 s]; [reflexivity|].
    destruct (lower_cyr c2); [|reflexivity]. now rewrite pre_pre.
  - now destruct s.
Qed.

Lemma word_at_unfold (s : str) :
  word_at s
  = match s with
    | c :: c2 :: s' =>
        if upper_cyr c && lower_cyr c2
        then Some (c :: c2 :: take_while lower_cyr s', drop_while lower_cyr s')
        else None
    | _ => None
    end.
Proof.
  destruct s as [|c [|c2 s]]; [reflexivity| |].
  - cbn. now rewrite andb_false_r.
  - cbn [word_at take_while drop_while]. destruct (upper_cyr c); [|reflexivity].
    now destruct (lower_cyr c2).
Qed.

Lemma run_cap_word_head (s : str) :
  hd_error (run cap_word s) = option_map as_thread (word_at s).
Proof.
  rewrite run_cap_word, word_at_unfold. destruct s as [|c [|c2 s]]; try reflexivity.
  destruct (upper_cyr c && lower_cyr c2); [|reflexivity].
  rewrite hd_error_map, greedy_prefixes_head. reflexivity.
Qed.

Lemma cap_word_then (k : str -> list thread) (s : str) :
  (forall c s', lower_cyr c = true -> k (c :: s') = []) ->
  and_then (run cap_word s) k
  = match word_at s with
    | Some (w, r) => map (prepend w) (k r)
    | None => []
    end.
Proof.
  intros Hk. rewrite run_cap_word, word_at_unfold.
  destruct s as [|c [|c2 s]]; try reflexivity.
  destruct (upper_cyr c && lower_cyr c2); [|reflexivity].
  rewrite and_then_pre, class_then by exact Hk. now rewrite pre_pre.
Qed.

Lemma run_cap_word_space (c : char) (s : str) :
  is_space c = true -> run cap_word (c :: s) = [].
Proof.
  intros Hc. rewrite run_cap_word. destruct s as [|c2 s]; [reflexivity|].
  destruct (upper_cyr c) eqn:Hu; [|reflexivity].
  rewrite (@cyr_not_space c) in Hc; [discriminate | now left].
Qed.

Lemma run_gap_word (s : str) :
  run gap_word s
  = if truthy (take_while is_space s)
    then map (prepend (take_while is_space s)) (run cap_word (drop_while is_space s))
    else [].
Proof.
  unfold gap_word. cbn [run]. unfold ws. rewrite run_plus_class.
  destruct s as [|c s]; [reflexivity|]. cbn [take_while drop_while].
  destruct (is_space c); [|reflexivity]. cbn [truthy].
  rewrite and_then_pre, class_then by (intros; now apply run_cap_word_space).
  now rewrite pre_pre.
Qed.

Lemma run_gap_word_head (s : str) :
  hd_error (run gap_word s) = option_map as_thread (next_word_at s).
Proof.
  rewrite run_gap_word. unfold next_word_at.
  destruct (truthy (take_while is_space s)); [|reflexivity].
  rewrite hd_error_map, run_cap_word_head.
  now destruct (word_at (drop_while is_space s)) as [[w r]|].
Qed.

Lemma run_gap_word_lower (c : char) (s : str) :
  lower_cyr c = true -> run gap_word (c :: s) = [].
Proof.
  intros Hc. rewrite run_gap_word. cbn [take_while].
  rewrite (@cyr_not_space c); [reflexivity | now right].
Qed.

Lemma next_word_at_advances (s gw r : str) :
  next_word_at s = Some (gw, r) -> truthy gw = true.
Proof.
  unfold next_word_at. destruct (take_while is_space s) as [|x g]; [discriminate|].
  cbn [truthy]. destruct (word_at _) as [[w r']|]; [|discriminate].
  now intros [= <- _].
Qed.

Lemma filter_advances_head (ts : list thread) (a : thread) :
  hd_error ts = Some a -> advances a = true ->
  hd_error (filter advances ts) = Some a.
Proof.
  destruct ts as [|b ts]; [discriminate|]. intros [= ->] Ha. cbn. now rewrite Ha.
Qed.

Lemma and_then_head (ts : list thread) (k : str -> list thread) :
  hd_error (and_then ts k)
  = match ts with
    | [] => None
    | a :: ts' =>
        match hd_error (k (rest a)) with
        | Some b => Some (Thread (consumed a ++ consumed b) (rest b) (caps a ++ caps b))
        | None => hd_error (and_then ts' k)
        end
    end.
Proof.
  destruct ts as [|a ts]; [reflexivity|].
  change (and_then (a :: ts) k) with (and_then ([a] ++ ts) k).
  rewrite and_then_app, hd_error_app, and_then_one, hd_error_map.
  now destruct (hd_error (k (rest a))).
Qed.

Lemma run_names_tail (s : str) :
  run names_tail s
  = and_then (run gap_word s)
      (fun s1 => and_then (filter advances (run gap_word s1)) (fun s2 => [stay s2])
                 ++ [stay s1]).
Proof.
  unfold names_tail, times.
  rewrite (@run_rep_any_fuel gap_word 1 (Some 2) true s (S (S (S (length s))))) by lia.
  reflexivity.
Qed.

Lemma run_names_tail_lower (c : char) (s : str) :
  lower_cyr c = true -> run names_tail (c :: s) = [].
Proof.
  intros Hc. rewrite run_names_tail, run_gap_word_lower by exact Hc. reflexivity.
Qed.

Lemma run_names_tail_head (s : str) :
  hd_error (run names_tail s)
  = match next_word_at s with
    | Some (w2, r2) =>
        match next_word_at r2 with
        | Some (w3, r3) => Some (Thread (w2 ++ w3) r3 [])
        | None => Some (Thread w2 r2 [])
        end
    | None => None
    end.
Proof.
  rewrite run_names_tail, and_then_head.
  pose proof (run_gap_word_head s) as H2.
  destruct (run gap_word s) as [|a ts].
  - cbn in H2. now destruct (next_word_at s) as [[w2 r2]|].
  - cbn [hd_error] in H2. destruct (next_word_at s) as [[w2 r2]|]; [|discriminate].
    injection H2 as ->. cbn [as_thread fst snd rest consumed caps].
    rewrite and_then_stays, hd_error_app.
    pose proof (run_gap_word_head r2) as H3.
    destruct (next_word_at r2) as [[w3 r3]|] eqn:E3.
    + rewrite (@filter_advances_head _ _ H3);
        [reflexivity | exact (@next_word_at_advances _ _ _ E3)].
    + destruct (run gap_word r2); [|discriminate]. cbn.
      now rewrite app_nil_r.
Qed.

Lemma run_FIO_PATTERN_head (s : str) :
  hd_error (run FIO_PATTERN s) = option_map as_match (fio_at s).
Proof.
  change (run FIO_PATTERN s)
    with (map (fun a => Thread (consumed a) (rest a) (caps a ++ [(1%nat, consumed a)]))
              (and_then (run cap_word s) (run names_tail))).
  rewrite hd_error_map, cap_word_then by exact run_names_tail_lower. unfold fio_at.
  destruct (word_at s) as [[w1 r1]|]; [|reflexivity].
  rewrite hd_error_map, run_names_tail_head.
  destruct (next_word_at r1) as [[w2 r2]|]; [|reflexivity].
  destruct (next_word_at r2) as [[w3 r3]|]; reflexivity.
Qed.

Lemma word_at_advances (s w r : str) : word_at s = Some (w, r) -> w <> [].
Proof.
  destruct s as [|c s]; [discriminate|]. cbn [word_at].
  destruct (_ && _); [|discriminate]. now intros [= <- _].
Qed.

Lemma fio_at_advances (s m r : str) : fio_at s = Some (m, r) -> m <> [].
Proof.
  unfold fio_at. destruct (word_at s) as [[w1 r1]|] eqn:E1; [|discriminate].
  apply word_at_advances in E1.
  destruct (next_word_at r1) as [[w2 r2]|]; [|discriminate].
  destruct (next_word_at r2) as [[w3 r3]|]; intros [= <- _];
    destruct w1; [contradiction | discriminate | contradiction | discriminate].
Qed.

Lemma scan_FIO_PATTERN (s : str) :
  forall skip gap,
    map (fun mo => match group 1 mo with Some x => x | None => [] end)
        (fst (scan FIO_PATTERN s skip gap))
    = fio_candidates_from s skip.
Proof.
  induction s as [|c s IH]; intros skip gap.
  - destruct skip; [|reflexivity]. cbn [scan].
    rewrite run_FIO_PATTERN_head. reflexivity.
  - destruct skip as [|k]; [|apply IH].
    cbn [scan fio_candidates_from]. rewrite run_FIO_PATTERN_head.
    destruct (fio_at (c :: s)) as [[m r]|] eqn:E; [|apply IH].
    apply fio_at_advances in E. destruct m as [|x m]; [contradiction|].
    cbn [option_map as_match fst snd advances consumed truthy length cons_fst map
         group found caps last_cap Nat.eqb pred].
    now rewrite IH.
Qed.

Lemma findall_FIO_PATTERN (s : str) :
  findall FIO_PATTERN s = fio_candidates s.
Proof. apply scan_FIO_PATTERN. Qed.

(** C6, as the code has it. The candidates of [extract_fio] are found
    by one pass over the text from the left: where a capitalized
    Cyrillic token starts, with whitespace and a second such token after
    it, these two tokens and, when whitespace and a third token follow,
    the third one are a candidate, and the pass resumes after the
    candidate, so that candidates do not overlap. A candidate is
    rejected exactly when a word of the exclusion list occurs in it, as
    a substring. The result is the first candidate that is not
    rejected, and the sentinel when there is none. *)
Theorem extract_fio_scans_without_overlap :
  forall full_text title,
    findall FIO_PATTERN full_text = fio_candidates full_text
    /\ (forall m,
           In m (fio_candidates full_text) ->
           fio_candidate m /\ occurs m full_text)
    /\ (forall m,
           survives m = false
           <-> exists excluded, In excluded excluded_words /\ occurs excluded m)
    /\ extract_fio full_text title
       = match find survives (fio_candidates full_text) with
         | Some m => m
         | None => FIO_SENTINEL
         end
    /\ FIO_SENTINEL = u "Не удалось определить ФИО".
Proof.
  intros full_text title.
  split; [apply findall_FIO_PATTERN|].
  split; [intros m; rewrite <- findall_FIO_PATTERN; apply fio_matches_candidates|].
  split; [|split; [|reflexivity]].
  - intros m. unfold survives. rewrite negb_false_iff.
    apply existsb_contains_iff.
  - unfold extract_fio. cbv zeta.
    rewrite first_fio_find, findall_FIO_PATTERN; [reflexivity|].
    apply Forall_forall. intros m Hm. now apply fio_matches_candidates in Hm.
Qed.

(** C6 as stated fails twice. In [institution_then_name] the sequence
    [Иван Петров] is made of two capitalized tokens, stands in the text
    and contains no excluded word, and the sentinel is returned: the
    candidates before it took its first token. In [name_with_stem] no
    token of the only candidate is a word of the exclusion list, and the
    candidate is rejected: an excluded word is the beginning of its
    second token. *)
Lemma fio_is_not_first_surviving_sequence :
  (fio_at (u "Иван Петров") = Some (u "Иван Петров", [])
   /\ contains (u "Иван Петров") institution_then_name = true
   /\ survives (u "Иван Петров") = true
   /\ fio_candidates institution_then_name
      = [u "Совет Министров Республики"; u "Беларусь Иван Петров"]
   /\ extract_fio institution_then_name (u "") = FIO_SENTINEL)
  /\ (fio_candidates name_with_stem = [name_with_stem]
      /\ split name_with_stem = [u "Пётр"; u "Советников"]
      /\ existsb (fun word => existsb (str_eqb word) excluded_words)
           (split name_with_stem) = false
      /\ contains (u "Совет") name_with_stem = true
      /\ extract_fio name_with_stem (u "") = FIO_SENTINEL).
Proof.
  vm_compute. repeat split.
Qed.

(* ===================================================================== *)
(** ** Further properties: the listing callback *)
(* ===================================================================== *)

(** [extract_item_date] returns [None] whatever the markup of the item:
    with or without a date block, whatever the day and month-year
    texts. *)
Theorem extract_item_date_always_none :
  forall item, extract_item_date item = None.
Proof. exact extract_item_date_none. Qed.

Section ListingShape.

Variable urljoin : str -> str -> str.
Variable today : datetime.

(** What the item loop yields are article requests only, each for an
    item with a title that is not empty and a link that is not empty,
    cleaned by [clean_url]; the date it carries is the one the extractor
    gave for the item. *)
Lemma parse_items_requests (item_date_of : node -> option datetime)
    (news_items : list node) (r : request) :
  In r (fst (parse_items urljoin today item_date_of news_items)) ->
  exists item link url title snippet,
    In item news_items
    /\ r = ArticleRequest url title snippet (item_date_of item)
    /\ title <> []
    /\ get (css "a::attr(href)" [item]) = Some link
    /\ link <> []
    /\ clean_url urljoin link = Some url.
Proof.
  induction news_items as [|item later IH]; [intros []|].
  assert (Hlater : In r (fst (parse_items urljoin today item_date_of later)) ->
                   exists item0 link url title snippet,
                     In item0 (item :: later)
                     /\ r = ArticleRequest url title snippet (item_date_of item0)
                     /\ title <> []
                     /\ get (css "a::attr(href)" [item0]) = Some link
                     /\ link <> []
                     /\ clean_url urljoin link = Some url).
  { intros Hin. destruct (IH Hin) as (item0 & link & url & title & snippet & H0 & H).
    exists item0, link, url, title, snippet. split; [now right | exact H]. }
  cbn [parse_items]. cbv zeta.
  destruct (match item_date_of item with
            | Some d => date_lt d today
            | None => false
            end); [intros []|].
  destruct (negb (nonempty (css ".lenta_item_title" [item]))); [exact Hlater|].
  set (title :=
         match get (css "::text" (css ".lenta_item_title" [item])) with
         | Some t =>
             if truthy t then t
             else strip (join (u " ")
                           (getall (css "::text" (css ".lenta_item_title" [item]))))
         | None =>
             strip (join (u " ")
                      (getall (css "::text" (css ".lenta_item_title" [item]))))
         end).
  destruct (negb (truthy title)) eqn:Htitle; [exact Hlater|].
  destruct (get (css "a::attr(href)" [item])) as [link|] eqn:Hlink;
    [|exact Hlater].
  cbn [truthy_opt bind].
  destruct (negb (truthy link)) eqn:Htruthy; [exact Hlater|].
  destruct (is_presidential_appointment _); [|exact Hlater].
  destruct (clean_url urljoin link) as [url|] eqn:Hurl; [|exact Hlater].
  cbn [cons_request fst In]. intros [<- | Hin]; [|now apply Hlater].
  exists item, link, url, title. eexists.
  split; [now left|]. split; [reflexivity|].
  split; [intros E; rewrite E in Htitle; discriminate|].
  split; [exact Hlink|].
  split; [intros E; rewrite E in Htruthy; discriminate | exact Hurl].
Qed.

End ListingShape.

(** A listing page yields article requests and then at most one
    request for a further listing page; that
    request is for the next page number and keeps [continue_loading]
    set. Every article request is for an item of the page with a title
    and a link that are not empty, and carries no item date. *)
Theorem parse_news_list_shape :
  forall urljoin today page continue_loading response,
    exists articles next,
      parse_news_list urljoin today page continue_loading response
      = articles ++ next
      /\ (forall r,
             In r articles ->
             exists item link url title snippet,
               In item (css ".lenta_item" response)
               /\ r = ArticleRequest url title snippet None
               /\ title <> []
               /\ get (css "a::attr(href)" [item]) = Some link
               /\ link <> []
               /\ clean_url urljoin link = Some url)
      /\ (next = []
          \/ exists next_url, next = [NewsListRequest next_url (page + 1) true]).
Proof.
  intros urljoin today page continue_loading response.
  unfold parse_news_list, parse_news_list_with. cbv zeta.
  destruct (parse_items urljoin today extract_item_date (css ".lenta_item" response))
    as [requests found] eqn:E.
  exists requests.
  exists (if continue_loading && negb found
          then next_page_request urljoin (css "div.load_more" response) page
          else []).
  split; [reflexivity|]. split.
  - intros r Hr.
    destruct (@parse_items_requests urljoin today extract_item_date
                (css ".lenta_item" response) r)
      as (item & link & url & title & snippet & Hitem & Hreq & H);
      [now rewrite E|].
    rewrite extract_item_date_none in Hreq.
    now exists item, link, url, title, snippet.
  - destruct (continue_loading && negb found); [|now left].
    destruct (next_page_request_shape urljoin (css "div.load_more" response) page)
      as [-> | [path ->]]; [now left|].
    right. eexists. reflexivity.
Qed.

(* ===================================================================== *)
(** ** Further properties: URLs *)
(* ===================================================================== *)

Lemma lit_prefix_exact (k s : str) :
  lit_prefix false k s = startswith k s.
Proof.
  revert s. induction k as [|c k IH]; intros s; [reflexivity|].
  destruct s as [|x s]; [reflexivity|]. cbn. now rewrite IH, N.eqb_sym.
Qed.

Lemma startswith_length (k s : str) :
  startswith k s = true -> length (firstn (length k) s) = length k.
Proof.
  revert s. induction k as [|c k IH]; intros s; [reflexivity|].
  destruct s as [|x s]; [discriminate|]. cbn. intros H.
  apply andb_true_iff in H. destruct H as [_ H]. now rewrite IH.
Qed.
(** [re.sub] with a literal pattern is [str.replace]: the scan of the
    literal rebuilds the text as [replace_from] does. *)
Lemma scan_literal (c : char) (k repl : str) :
  forall s skip gap,
    flat_map (fun mo => before mo ++ repl)
             (fst (scan (lit false (c :: k)) s skip gap))
    ++ snd (scan (lit false (c :: k)) s skip gap)
    = rev gap ++ replace_from (c :: k) repl s skip.
Proof.
  induction s as [|x s IH]; intros skip gap.
  - destruct skip; cbn [scan]; rewrite ?run_lit; cbn; now rewrite ?app_nil_r.
  - destruct skip as [|skip]; [|cbn [scan replace_from]; apply IH].
    cbn [scan replace_from]. rewrite run_lit, lit_prefix_exact.
    destruct (startswith (c :: k) (x :: s)) eqn:Hpre; cbn [hd_error].
    + cbn [consumed]. rewrite (startswith_length _ _ Hpre).
      cbn [advances consumed firstn length truthy cons_fst fst snd flat_map before].
      rewrite <- !app_assoc. do 2 f_equal.
      cbn [Nat.sub]. rewrite Nat.sub_0_r. exact (IH (length k) []).
    + rewrite IH. cbn [rev]. now rewrite <- app_assoc.
Qed.

Lemma sub_literal (c : char) (k repl s : str) :
  sub (lit false (c :: k)) repl s = replace (c :: k) repl s.
Proof.
  unfold sub, replace.
  pose proof (scan_literal c k repl s 0 []) as H.
  destruct (scan (lit false (c :: k)) s 0 []) as [ms tail]. exact H.
Qed.

Lemma replace_absent (old new s : str) :
  contains old s = false -> replace_from old new s 0 = s.
Proof.
  induction s as [|x s IH]; [reflexivity|].
  cbn [contains replace_from]. intros H. apply orb_false_elim in H.
  destruct H as [-> H]. now rewrite IH.
Qed.

(** [clean_url] returns [None] for the empty string only. A URL that
    starts with http and holds no escaped ampersand comes back as it is;
    one that starts with two slashes gets the https scheme in front of
    its decoded form. *)
Theorem clean_url_behaviour :
  forall urljoin url,
    (clean_url urljoin url = None <-> url = [])
    /\ (startswith (u "http") url = true ->
        contains (u "&amp;") url = false ->
        clean_url urljoin url = Some url)
    /\ (startswith (u "//") url = true ->
        clean_url urljoin url
        = Some (u "https:" ++ replace (u "&amp;") (u "&") url)).
Proof.
  intros urljoin url. unfold clean_url.
  change (u "&amp;") with (ch "&" :: u "amp;"). rewrite sub_literal.
  split; [|split].
  - destruct url as [|x url]; [now split|]. cbn [truthy negb]. cbv zeta.
    split; [|discriminate].
    destruct (startswith (u "//") _); [discriminate|].
    destruct (startswith (u "/") _); [discriminate|].
    destruct (negb (startswith (u "http") _)); discriminate.
  - intros Hhttp Hamp. destruct url as [|x url]; [discriminate|].
    cbn [truthy negb]. cbv zeta. unfold replace.
    rewrite replace_absent by exact Hamp. rewrite Hhttp. cbn [negb].
    assert (Hx : x = ch "h").
    { change (u "http") with (ch "h" :: u "ttp") in Hhttp.
      cbn [startswith] in Hhttp. apply andb_true_iff in Hhttp.
      destruct Hhttp as [Hh _]. apply N.eqb_eq in Hh. now symmetry. }
    subst x. reflexivity.
  - intros Hslash. destruct url as [|x [|y url]]; [discriminate| |];
      change (u "//") with [ch "/"; ch "/"] in Hslash;
      cbn [startswith] in Hslash; apply andb_true_iff in Hslash;
      destruct Hslash as [Hx Hy]; [discriminate|].
    apply andb_true_iff in Hy. destruct Hy as [Hy _].
    apply N.eqb_eq in Hx. apply N.eqb_eq in Hy. subst x y.
    reflexivity.
Qed.

(* ===================================================================== *)
(** ** Further properties: the classifier *)
(* ===================================================================== *)

Lemma between_true (lo hi c : char) :
  between lo hi c = true <-> (lo <= c /\ c <= hi)%N.
Proof. unfold between. now rewrite andb_true_iff, !N.leb_le. Qed.

Lemma between_false (lo hi c : char) :
  between lo hi c = false <-> (c < lo \/ hi < c)%N.
Proof.
  unfold between. rewrite andb_false_iff, !N.leb_gt. reflexivity.
Qed.

Arguments between_true (lo hi c)%_N.
Arguments between_false (lo hi c)%_N.

(** Lowering twice is lowering once. *)
Lemma lower_char_idem (c : char) : lower_char (lower_char c) = lower_char c.
Proof.
  unfold lower_char, char in *.
  destruct (between 65 90 c) eqn:H1.
  { apply between_true in H1.
    rewrite (proj2 (between_false 65 90 (c + 32))) by lia.
    rewrite (proj2 (between_false 192 222 (c + 32))) by lia.
    rewrite (proj2 (between_false 1024 1039 (c + 32))) by lia.
    now rewrite (proj2 (between_false 1040 1071 (c + 32))) by lia. }
  destruct (between 192 222 c && negb (N.eqb c 215)) eqn:H2.
  { apply andb_true_iff in H2. destruct H2 as [H2 _]. apply between_true in H2.
    rewrite (proj2 (between_false 65 90 (c + 32))) by lia.
    rewrite (proj2 (between_false 192 222 (c + 32))) by lia.
    rewrite (proj2 (between_false 1024 1039 (c + 32))) by lia.
    now rewrite (proj2 (between_false 1040 1071 (c + 32))) by lia. }
  destruct (between 1024 1039 c) eqn:H3.
  { apply between_true in H3.
    rewrite (proj2 (between_false 65 90 (c + 80))) by lia.
    rewrite (proj2 (between_false 192 222 (c + 80))) by lia.
    rewrite (proj2 (between_false 1024 1039 (c + 80))) by lia.
    now rewrite (proj2 (between_false 1040 1071 (c + 80))) by lia. }
  destruct (between 1040 1071 c) eqn:H4.
  { apply between_true in H4.
    rewrite (proj2 (between_false 65 90 (c + 32))) by lia.
    rewrite (proj2 (between_false 192 222 (c + 32))) by lia.
    rewrite (proj2 (between_false 1024 1039 (c + 32))) by lia.
    now rewrite (proj2 (between_false 1040 1071 (c + 32))) by lia. }
  now rewrite H1, H2, H3, H4.
Qed.

Lemma lower_idem (s : str) : lower (lower s) = lower s.
Proof.
  unfold lower. rewrite map_map. apply map_ext. intros c. apply lower_char_idem.
Qed.

Lemma occurs_trans (a b c : str) : occurs a b -> occurs b c -> occurs a c.
Proof.
  intros [p1 [q1 ->]] [p2 [q2 ->]]. exists (p2 ++ p1), (q1 ++ q2).
  now rewrite <- !app_assoc.
Qed.

Lemma occurs_lower (a b : str) : occurs a b -> occurs (lower a) (lower b).
Proof.
  intros [p [q ->]]. exists (lower p), (lower q). unfold lower.
  now rewrite !map_app.
Qed.

Lemma existsb_contains_mono (words : list str) (a b : str) :
  occurs a b ->
  existsb (fun w => contains w a) words = true ->
  existsb (fun w => contains w b) words = true.
Proof.
  intros Hab H. apply existsb_contains_iff in H. destruct H as [w [Hin Hw]].
  apply existsb_contains_iff. exists w. split; [exact Hin|].
  now apply (occurs_trans Hw).
Qed.

(** The classifier sees a text through its lowercased form only, so
    lowering the text beforehand, as the listing callback does, changes
    nothing. A text that contains an accepted text is accepted. So an
    item whose title alone is accepted passes the test of the listing on
    title and snippet. *)
Theorem classifier_case_and_context :
  (forall text, is_presidential_appointment (lower text)
                = is_presidential_appointment text)
  /\ (forall text1 text2,
         lower text1 = lower text2 ->
         is_presidential_appointment text1 = is_presidential_appointment text2)
  /\ (forall inner before after,
         is_presidential_appointment inner = true ->
         is_presidential_appointment (before ++ inner ++ after) = true)
  /\ (forall title snippet,
         is_presidential_appointment title = true ->
         is_presidential_appointment (lower (title ++ u " " ++ snippet)) = true).
Proof.
  assert (Hlower : forall text, is_presidential_appointment (lower text)
                                = is_presidential_appointment text).
  { intros text. unfold is_presidential_appointment. now rewrite lower_idem. }
  assert (Hmono : forall inner before after,
             is_presidential_appointment inner = true ->
             is_presidential_appointment (before ++ inner ++ after) = true).
  { intros inner before after. unfold is_presidential_appointment. cbv zeta.
    rewrite !andb_true_iff. intros [Hc Ha].
    assert (Hocc : occurs (lower inner) (lower (before ++ inner ++ after))).
    { apply occurs_lower. now exists before, after. }
    split; eapply existsb_contains_mono; eauto. }
  split; [exact Hlower|]. split; [|split; [exact Hmono|]].
  - intros text1 text2 H. unfold is_presidential_appointment. now rewrite H.
  - intros title snippet H. rewrite Hlower.
    apply (Hmono title [] (u " " ++ snippet) H).
Qed.


Lemma core_patterns_are_patterns :
  forallb (fun core => existsb (str_eqb core) APPOINTMENT_PATTERNS)
          CORE_APPOINTMENT_PATTERNS = true.
Proof. vm_compute. reflexivity. Qed.

Lemma patterns_contain_core :
  forallb (fun pattern =>
             existsb (fun core => contains core pattern) CORE_APPOINTMENT_PATTERNS)
          APPOINTMENT_PATTERNS = true.
Proof. vm_compute. reflexivity. Qed.

Lemma str_eqb_eq (a b : str) : str_eqb a b = true -> a = b.
Proof.
  unfold str_eqb. rewrite andb_true_iff, Nat.eqb_eq. intros [Hlen Hpre].
  apply startswith_iff in Hpre. destruct Hpre as [post ->].
  rewrite length_app in Hlen. destruct post; [now rewrite app_nil_r|].
  cbn in Hlen. lia.
Qed.

(** Seven of the seventeen appointment patterns contain another one and
    decide nothing: the classifier is the same with the ten others
    alone. Two category keywords hold an appointment pattern, so a text
    that mentions either of them is accepted on that word alone. *)
Theorem classifier_redundant_patterns :
  (forall text,
      is_presidential_appointment text
      = existsb (fun category => contains category (lower text)) RELEVANT_CATEGORIES
        && existsb (fun pattern => contains pattern (lower text))
                   CORE_APPOINTMENT_PATTERNS)
  /\ (forall text,
         occurs (u "назначения") (lower text)
         \/ occurs (u "кадровые решения") (lower text) ->
         is_presidential_appointment text = true).
Proof.
  assert (Hcore : forall hay,
             existsb (fun pattern => contains pattern hay) APPOINTMENT_PATTERNS
             = existsb (fun pattern => contains pattern hay)
                       CORE_APPOINTMENT_PATTERNS).
  { intros hay. apply eq_true_iff_eq. rewrite !existsb_contains_iff. split.
    - intros [pattern [Hin Hocc]].
      pose proof patterns_contain_core as H. rewrite forallb_forall in H.
      specialize (H pattern Hin). apply existsb_contains_iff in H.
      destruct H as [core [Hcin Hcocc]]. exists core. split; [exact Hcin|].
      now apply (occurs_trans Hcocc).
    - intros [core [Hin Hocc]].
      pose proof core_patterns_are_patterns as H. rewrite forallb_forall in H.
      specialize (H core Hin). apply existsb_exists in H.
      destruct H as [pattern [Hpin Heq]]. apply str_eqb_eq in Heq. subst pattern.
      now exists core. }
  split.
  - intros text. unfold is_presidential_appointment. cbv zeta. now rewrite Hcore.
  - intros text H. unfold is_presidential_appointment. cbv zeta.
    rewrite andb_true_iff, !existsb_contains_iff.
    destruct H as [H | H].
    + split.
      * exists (u "назначения"). split; [|exact H].
        unfold RELEVANT_CATEGORIES. apply in_map. cbn [In].
        repeat (first [left; reflexivity | right]).
      * exists (u "назначен"). split.
        -- unfold APPOINTMENT_PATTERNS. apply in_map. cbn [In].
        repeat (first [left; reflexivity | right]).
        -- apply (occurs_trans (b := u "назначения")); [|exact H].
           apply contains_iff. vm_compute. reflexivity.
    + split.
      * exists (u "кадровые решения"). split; [|exact H].
        unfold RELEVANT_CATEGORIES. apply in_map. cbn [In].
        repeat (first [left; reflexivity | right]).
      * exists (u "кадровые решения"). split; [|exact H].
        unfold APPOINTMENT_PATTERNS. apply in_map. cbn [In].
        repeat (first [left; reflexivity | right]).
Qed.
